(** * pdfjs-coordinates: the interactive viewport controller

    A shallow embedding of the viewer module (the variant with the shared
    DPR buffer, the help overlay and the retain-viewport checkbox, and the
    earlier variants where they differ) and the properties of its
    coordinate transform, page navigation, zoom stepping, touch gestures,
    reload and rendering.

    Numbers.  JavaScript numbers are modelled as exact rationals ([Q]);
    page indices, which the code only ever sets to 1, increments, decrements
    or clamps between integers, are modelled as [Z].  Every comparison and
    arithmetic operation is the one the source performs, without the
    rounding of binary floating point; the coordinate transform is also
    given on binary64 numbers, to run it on a sample.

    Events.  The module is a set of event handlers over shared variables.
    Each handler is a function from the state to a result, and an
    [async] function is split at its [await]s into the pieces that run when
    the awaited promise is settled.  The document collaborator may settle
    the promises it has handed out in any order, and is taken to complete
    every rasterisation it was asked for. *)

From Stdlib Require Import ZArith QArith Qround Qminmax Qpower Lia.
From Stdlib Require Import List Bool String Ascii.
From Stdlib Require DecimalString DecimalN.
From Stdlib Require Floats.PrimFloat.
From Stdlib Require Import SetoidList.
Import ListNotations.

Local Open Scope Q_scope.

(** ** Numeric helpers *)

(** [a < b] on JavaScript numbers, as a boolean. *)
Definition Qltb (a b : Q) : bool := negb (Qle_bool b a).

(** ** Coordinate transform *)

Module Coord.

(** [const PDF_UNIT_CM = 0.0352778;] *)
Definition PDF_UNIT_CM : Q := 0.0352778.

(** [Math.max(0, Math.min(cssX, rect.width))], the clamp that
    [updateOverlays] applies to a pointer offset before converting it. *)
Definition clamp (v extent : Q) : Q := Qmax 0 (Qmin v extent).

(** [const ptX = x/scale] followed by [ptX*PDF_UNIT_CM]: one coordinate of
    the pointer, in centimetres ([updateOverlays]; the mousemove handlers of
    the earlier variants compute [(x_px / scale) * PDF_UNIT_TO_CM]). *)
Definition toDocumentUnit (x scale : Q) : Q := (x / scale) * PDF_UNIT_CM.

Definition toDocumentUnits (p : Q * Q) (scale : Q) : Q * Q :=
  (toDocumentUnit (fst p) scale, toDocumentUnit (snd p) scale).

(** Modelled from the spec: the inverse transform [toPixels] is not part of
    the source (the viewer only converts pixels to centimetres); the
    specification defines it as
    [toPixels(docPoint, scale) = docPoint / UNIT_TO_CM * scale]. *)
Definition toPixel (d scale : Q) : Q := d / PDF_UNIT_CM * scale.

Definition toPixels (d : Q * Q) (scale : Q) : Q * Q :=
  (toPixel (fst d) scale, toPixel (snd d) scale).

(** Equality of points up to the representation of fractions. *)
Definition point_eq (p q : Q * Q) : Prop := fst p == fst q /\ snd p == snd q.

Import PrimFloat.

(** The same two transforms on binary64 numbers, to run them as JavaScript
    does; [0x1.20fee8a8cb65cp-5] is the binary64 number that the literal
    [0.0352778] denotes. *)
Definition PDF_UNIT_CM64 : PrimFloat.float := 0x1.20fee8a8cb65cp-5%float.

Definition toDocumentUnit64 (x scale : PrimFloat.float) : PrimFloat.float :=
  PrimFloat.mul (PrimFloat.div x scale) PDF_UNIT_CM64.

Definition toPixel64 (d scale : PrimFloat.float) : PrimFloat.float :=
  PrimFloat.mul (PrimFloat.div d PDF_UNIT_CM64) scale.

(** [|a - b| < 2^-40] *)
Definition close64 (a b : PrimFloat.float) : bool :=
  PrimFloat.ltb (PrimFloat.abs (PrimFloat.sub a b)) 0x1p-40%float.

End Coord.


(** ** The viewer: data *)

(** The document handle returned by [pdfjsLib.getDocument(data).promise];
    only [numPages] is read by the viewer. *)
Record Doc := { numPages : Z }.

(** [pdfData], a [Uint8Array]. *)
Definition Bytes := list Byte.byte.

(** One entry of [e.touches] / [e.changedTouches]. *)
Record Touch := { clientX : Q; clientY : Q }.

(** The fields of a keyboard event that the keydown handler reads. *)
Record KeyEvent := {
  key : string;
  altKey : bool;
  ctrlKey : bool;
  shiftKey : bool
}.

(** What the page supplies to the module: [Math.hypot], and the values of
    the options of the zoom [<select>], from which the module builds
    [const zoomSteps = Array.from(zoomSelect.options).map(o => parseFloat(o.value))].
    The page's markup is not part of the source, so the list is a
    parameter. *)
Class Platform := {
  hypot : Q -> Q -> Q;
  zoomSteps : list Q
}.

(** [page.getViewport({ scale })] for the page fetched by [getPage(num)]:
    the value from which [renderPage] takes the buffer size and which it
    hands back to [page.render]. *)
Record Viewport := { vp_page : Z; vp_scale : Q }.

(** A call of the async function [renderPage] is suspended twice: at
    [await pdfDoc.getPage(num)] and at [await page.render(...).promise]. *)
Inductive Phase :=
| Fetching
| Drawing (vp : Viewport)
| Finished.

Record RenderTask := { r_num : Z; r_phase : Phase }.

(** A call of [loadPDF] waiting for [getDocument(data).promise]; [l_keep] is
    [const keep = retainViewport.checked], read when [loadPDF] is called. *)
Record Load := { l_data : Bytes; l_keep : bool; l_settled : bool }.

(** The module's [let] variables, the controls it reads and writes, and the
    promises it is waiting for.  The zoom control is taken to hold the
    number last selected in it or written to it.  The pointer overlay
    ([lastCssX], [lastCssY], tooltip, crosshair) and the clipboard are not
    part of the state: none of the handlers below reads them. *)
Record State := {
  pdfDoc : option Doc;                (* null until a load completes *)
  pdfData : option Bytes;
  pageNum : Z;
  scale : Q;
  touchStartX : option Q;             (* null or a number *)
  touchStartDist : option Q;
  zoomSelect_value : Q;               (* parseFloat(zoomSelect.value) *)
  retainViewport_checked : bool;
  helpOverlay_flex : bool;            (* helpOverlay.style.display==='flex' *)
  loads : list Load;
  renders : list RenderTask;
  canvasFor : option Viewport;        (* whose size both buffers have *)
  painted : list Viewport;            (* rasterised into them since *)
  pageIndicator : option (Z * Z);     (* `Page ${a} / ${b}` *)
  rejections : nat                    (* promises rejected, never handled *)
}.

Definition set_pdfDoc (v : option Doc) (s : State) : State :=
  {| pdfDoc := v; pdfData := pdfData s; pageNum := pageNum s; scale := scale s;
     touchStartX := touchStartX s; touchStartDist := touchStartDist s;
     zoomSelect_value := zoomSelect_value s;
     retainViewport_checked := retainViewport_checked s;
     helpOverlay_flex := helpOverlay_flex s; loads := loads s;
     renders := renders s; canvasFor := canvasFor s; painted := painted s;
     pageIndicator := pageIndicator s; rejections := rejections s |}.

Definition set_pdfData (v : option Bytes) (s : State) : State :=
  {| pdfDoc := pdfDoc s; pdfData := v; pageNum := pageNum s; scale := scale s;
     touchStartX := touchStartX s; touchStartDist := touchStartDist s;
     zoomSelect_value := zoomSelect_value s;
     retainViewport_checked := retainViewport_checked s;
     helpOverlay_flex := helpOverlay_flex s; loads := loads s;
     renders := renders s; canvasFor := canvasFor s; painted := painted s;
     pageIndicator := pageIndicator s; rejections := rejections s |}.

Definition set_pageNum (v : Z) (s : State) : State :=
  {| pdfDoc := pdfDoc s; pdfData := pdfData s; pageNum := v; scale := scale s;
     touchStartX := touchStartX s; touchStartDist := touchStartDist s;
     zoomSelect_value := zoomSelect_value s;
     retainViewport_checked := retainViewport_checked s;
     helpOverlay_flex := helpOverlay_flex s; loads := loads s;
     renders := renders s; canvasFor := canvasFor s; painted := painted s;
     pageIndicator := pageIndicator s; rejections := rejections s |}.

Definition set_scale (v : Q) (s : State) : State :=
  {| pdfDoc := pdfDoc s; pdfData := pdfData s; pageNum := pageNum s; scale := v;
     touchStartX := touchStartX s; touchStartDist := touchStartDist s;
     zoomSelect_value := zoomSelect_value s;
     retainViewport_checked := retainViewport_checked s;
     helpOverlay_flex := helpOverlay_flex s; loads := loads s;
     renders := renders s; canvasFor := canvasFor s; painted := painted s;
     pageIndicator := pageIndicator s; rejections := rejections s |}.

Definition set_touchStartX (v : option Q) (s : State) : State :=
  {| pdfDoc := pdfDoc s; pdfData := pdfData s; pageNum := pageNum s;
     scale := scale s;
     touchStartX := v; touchStartDist := touchStartDist s;
     zoomSelect_value := zoomSelect_value s;
     retainViewport_checked := retainViewport_checked s;
     helpOverlay_flex := helpOverlay_flex s; loads := loads s;
     renders := renders s; canvasFor := canvasFor s; painted := painted s;
     pageIndicator := pageIndicator s; rejections := rejections s |}.

Definition set_touchStartDist (v : option Q) (s : State) : State :=
  {| pdfDoc := pdfDoc s; pdfData := pdfData s; pageNum := pageNum s;
     scale := scale s;
     touchStartX := touchStartX s; touchStartDist := v;
     zoomSelect_value := zoomSelect_value s;
     retainViewport_checked := retainViewport_checked s;
     helpOverlay_flex := helpOverlay_flex s; loads := loads s;
     renders := renders s; canvasFor := canvasFor s; painted := painted s;
     pageIndicator := pageIndicator s; rejections := rejections s |}.

Definition set_zoomSelect_value (v : Q) (s : State) : State :=
  {| pdfDoc := pdfDoc s; pdfData := pdfData s; pageNum := pageNum s;
     scale := scale s;
     touchStartX := touchStartX s; touchStartDist := touchStartDist s;
     zoomSelect_value := v;
     retainViewport_checked := retainViewport_checked s;
     helpOverlay_flex := helpOverlay_flex s; loads := loads s;
     renders := renders s; canvasFor := canvasFor s; painted := painted s;
     pageIndicator := pageIndicator s; rejections := rejections s |}.

Definition set_retainViewport_checked (v : bool) (s : State) : State :=
  {| pdfDoc := pdfDoc s; pdfData := pdfData s; pageNum := pageNum s;
     scale := scale s;
     touchStartX := touchStartX s; touchStartDist := touchStartDist s;
     zoomSelect_value := zoomSelect_value s;
     retainViewport_checked := v;
     helpOverlay_flex := helpOverlay_flex s; loads := loads s;
     renders := renders s; canvasFor := canvasFor s; painted := painted s;
     pageIndicator := pageIndicator s; rejections := rejections s |}.

Definition set_helpOverlay_flex (v : bool) (s : State) : State :=
  {| pdfDoc := pdfDoc s; pdfData := pdfData s; pageNum := pageNum s;
     scale := scale s;
     touchStartX := touchStartX s; touchStartDist := touchStartDist s;
     zoomSelect_value := zoomSelect_value s;
     retainViewport_checked := retainViewport_checked s;
     helpOverlay_flex := v; loads := loads s;
     renders := renders s; canvasFor := canvasFor s; painted := painted s;
     pageIndicator := pageIndicator s; rejections := rejections s |}.

Definition set_loads (v : list Load) (s : State) : State :=
  {| pdfDoc := pdfDoc s; pdfData := pdfData s; pageNum := pageNum s;
     scale := scale s;
     touchStartX := touchStartX s; touchStartDist := touchStartDist s;
     zoomSelect_value := zoomSelect_value s;
     retainViewport_checked := retainViewport_checked s;
     helpOverlay_flex := helpOverlay_flex s; loads := v;
     renders := renders s; canvasFor := canvasFor s; painted := painted s;
     pageIndicator := pageIndicator s; rejections := rejections s |}.

Definition set_renders (v : list RenderTask) (s : State) : State :=
  {| pdfDoc := pdfDoc s; pdfData := pdfData s; pageNum := pageNum s;
     scale := scale s;
     touchStartX := touchStartX s; touchStartDist := touchStartDist s;
     zoomSelect_value := zoomSelect_value s;
     retainViewport_checked := retainViewport_checked s;
     helpOverlay_flex := helpOverlay_flex s; loads := loads s;
     renders := v; canvasFor := canvasFor s; painted := painted s;
     pageIndicator := pageIndicator s; rejections := rejections s |}.

Definition set_canvas (f : option Viewport) (p : list Viewport) (s : State) : State :=
  {| pdfDoc := pdfDoc s; pdfData := pdfData s; pageNum := pageNum s;
     scale := scale s;
     touchStartX := touchStartX s; touchStartDist := touchStartDist s;
     zoomSelect_value := zoomSelect_value s;
     retainViewport_checked := retainViewport_checked s;
     helpOverlay_flex := helpOverlay_flex s; loads := loads s;
     renders := renders s; canvasFor := f; painted := p;
     pageIndicator := pageIndicator s; rejections := rejections s |}.

Definition set_pageIndicator (v : option (Z * Z)) (s : State) : State :=
  {| pdfDoc := pdfDoc s; pdfData := pdfData s; pageNum := pageNum s;
     scale := scale s;
     touchStartX := touchStartX s; touchStartDist := touchStartDist s;
     zoomSelect_value := zoomSelect_value s;
     retainViewport_checked := retainViewport_checked s;
     helpOverlay_flex := helpOverlay_flex s; loads := loads s;
     renders := renders s; canvasFor := canvasFor s; painted := painted s;
     pageIndicator := v; rejections := rejections s |}.

Definition set_rejections (v : nat) (s : State) : State :=
  {| pdfDoc := pdfDoc s; pdfData := pdfData s; pageNum := pageNum s;
     scale := scale s;
     touchStartX := touchStartX s; touchStartDist := touchStartDist s;
     zoomSelect_value := zoomSelect_value s;
     retainViewport_checked := retainViewport_checked s;
     helpOverlay_flex := helpOverlay_flex s; loads := loads s;
     renders := renders s; canvasFor := canvasFor s; painted := painted s;
     pageIndicator := pageIndicator s; rejections := v |}.

(** The state when the module has been evaluated: [pdfDoc = null],
    [pdfData = null], [pageNum = 1], [scale = parseFloat(zoomSelect.value)],
    [touchStartX = null], [touchStartDist = null]; [sel] is the option of
    the zoom control selected in the page and [retain] the state of the
    checkbox. *)
Definition init (sel : Q) (retain : bool) : State :=
  {| pdfDoc := None; pdfData := None; pageNum := 1; scale := sel;
     touchStartX := None; touchStartDist := None;
     zoomSelect_value := sel; retainViewport_checked := retain;
     helpOverlay_flex := false; loads := []; renders := [];
     canvasFor := None; painted := []; pageIndicator := None;
     rejections := 0%nat |}.

(** What a handler did, named as the specification names it.  A handler
    either runs to its end, or stops at a [TypeError] (reading a property of
    [null]); the state carried is the one at that point. *)
Inductive Intent := PrevPage | NextPage | ZoomIn | ZoomOut.

Inductive Result :=
| Done (st : State) (out : list Intent)
| TypeError (st : State).

Definition state_of (r : Result) : State :=
  match r with Done st _ => st | TypeError st => st end.

Definition intents_of (r : Result) : list Intent :=
  match r with Done _ out => out | TypeError _ => [] end.

(** [l[k] = v] for an index inside the list. *)
Fixpoint update {A} (k : nat) (v : A) (l : list A) : list A :=
  match l, k with
  | [], _ => []
  | _ :: r, O => v :: r
  | x :: r, S k' => x :: update k' v r
  end.

(** ** The viewer: operations *)

Section Viewer.
Context {P : Platform}.

(** [async function renderPage(num)] up to its first [await]: evaluating
    [pdfDoc.getPage(num)] with [pdfDoc] null rejects the promise that the
    call returns, which no caller handles; otherwise the call is suspended
    until the page arrives. *)
Definition renderPage (num : Z) (st : State) : State :=
  match pdfDoc st with
  | None => set_rejections (S (rejections st)) st
  | Some _ =>
      set_renders (renders st ++ [{| r_num := num; r_phase := Fetching |}]) st
  end.

(** [renderPage] between its two [await]s, for the call at position [k]:
    [vp = page.getViewport({ scale })] with the value [scale] has now, both
    canvases and the wrapper are given the size of [vp] (assigning a canvas
    width clears it), and [page.render({ canvasContext: pdfCtx, viewport: vp })]
    is started. *)
Definition renderPage_fetched (k : nat) (st : State) : State :=
  match nth_error (renders st) k with
  | Some (Build_RenderTask num Fetching) =>
      let vp := {| vp_page := num; vp_scale := scale st |} in
      let st1 := set_canvas (Some vp) [] st in
      set_renders
        (update k {| r_num := num; r_phase := Drawing vp |} (renders st1)) st1
  | _ => st
  end.

(** [renderPage] after [await page.render(...).promise]: the page has been
    drawn into [pdfCtx], and the indicator is set to
    [`Page ${pageNum} / ${pdfDoc.numPages}`] from the module's variables. *)
Definition renderPage_drawn (k : nat) (st : State) : State :=
  match nth_error (renders st) k with
  | Some (Build_RenderTask num (Drawing vp)) =>
      let st1 := set_canvas (canvasFor st) (painted st ++ [vp]) st in
      let st2 :=
        set_renders
          (update k {| r_num := num; r_phase := Finished |} (renders st1)) st1 in
      match pdfDoc st2 with
      | Some d => set_pageIndicator (Some (pageNum st2, numPages d)) st2
      | None => set_rejections (S (rejections st2)) st2
      end
  | _ => st
  end.

(** [function loadPDF(data)] up to [getDocument(data).promise.then]. *)
Definition loadPDF (data : Bytes) (st : State) : State :=
  let keep := retainViewport_checked st in
  set_loads
    (loads st ++ [{| l_data := data; l_keep := keep; l_settled := false |}]) st.

(** The callback of [loadPDF], for the call at position [k], with the
    document that [getDocument] produced. *)
Definition loadPDF_then (k : nat) (doc : Doc) (st : State) : State :=
  match nth_error (loads st) k with
  | Some (Build_Load data keep false) =>
      let st0 :=
        set_loads
          (update k {| l_data := data; l_keep := keep; l_settled := true |}
             (loads st)) st in
      let st1 := set_pdfDoc (Some doc) st0 in
      let st2 :=
        if negb keep
        then set_scale (zoomSelect_value st1) (set_pageNum 1 st1)
        else st1 in
      let st3 :=
        set_pageNum (Z.min (Z.max 1 (pageNum st2)) (numPages doc)) st2 in
      let st4 := set_zoomSelect_value (scale st3) st3 in
      renderPage (pageNum st4) st4
  | _ => st
  end.

(** [getDocument(data).promise] rejected: [loadPDF] has no [catch]. *)
Definition loadPDF_rejected (k : nat) (st : State) : State :=
  match nth_error (loads st) k with
  | Some (Build_Load data keep false) =>
      set_rejections (S (rejections st))
        (set_loads
           (update k {| l_data := data; l_keep := keep; l_settled := true |}
              (loads st)) st)
  | _ => st
  end.

(** [r.onload = () => { pdfData = new Uint8Array(r.result); loadPDF(pdfData); }]
    of the file input and of the drop handler, reached for a PDF file. *)
Definition fileRead (data : Bytes) (st : State) : State :=
  loadPDF data (set_pdfData (Some data) st).

(** [if(pageNum>1) pageNum--,renderPage(pageNum);] *)
Definition previousPage (st : State) : Result :=
  if (1 <? pageNum st)%Z then
    let st1 := set_pageNum (pageNum st - 1) st in
    Done (renderPage (pageNum st1) st1) [PrevPage]
  else Done st [].

(** [if(pageNum<pdfDoc.numPages) pageNum++,renderPage(pageNum);] *)
Definition nextPage (st : State) : Result :=
  match pdfDoc st with
  | None => TypeError st
  | Some d =>
      if (pageNum st <? numPages d)%Z then
        let st1 := set_pageNum (pageNum st + 1) st in
        Done (renderPage (pageNum st1) st1) [NextPage]
      else Done st []
  end.

(** [zoomSelect.addEventListener('change', ...)], the user having selected
    the option of value [v]. *)
Definition zoomSelect_change (v : Q) (st : State) : State :=
  let st1 := set_scale v (set_zoomSelect_value v st) in
  renderPage (pageNum st1) st1.

(** [zoomSteps.indexOf(scale)]: the first index holding a number equal to
    [x], or [-1]. *)
Fixpoint indexOf_from (x : Q) (l : list Q) (i : Z) : Z :=
  match l with
  | [] => (-1)%Z
  | y :: r => if Qeq_bool y x then i else indexOf_from x r (i + 1)%Z
  end.

Definition indexOf (x : Q) (l : list Q) : Z := indexOf_from x l 0%Z.

(** [zoomSteps[i]], for an index inside the array. *)
Definition step_at (i : Z) : Q := nth (Z.to_nat i) zoomSteps 0.

(** The body of the [+] / [=] branch of the keydown handler. *)
Definition stepUp (st : State) : State :=
  let idx := indexOf (scale st) zoomSteps in
  if ((0 <=? idx) && (idx <? Z.of_nat (length zoomSteps) - 1))%Z then
    let st1 := set_scale (step_at (idx + 1)) st in
    let st2 := set_zoomSelect_value (scale st1) st1 in
    renderPage (pageNum st2) st2
  else st.

(** The body of the [-] branch of the keydown handler. *)
Definition stepDown (st : State) : State :=
  let idx := indexOf (scale st) zoomSteps in
  if (0 <? idx)%Z then
    let st1 := set_scale (step_at (idx - 1)) st in
    let st2 := set_zoomSelect_value (scale st1) st1 in
    renderPage (pageNum st2) st2
  else st.

Definition key_in (k : string) (l : list string) : bool :=
  existsb (String.eqb k) l.

(** [document.addEventListener('keydown', ...)].  The branches that only
    scroll the window or move the crosshair leave this state as it is. *)
Definition keydown (e : KeyEvent) (st : State) : Result :=
  if (key e =? "Escape")%string && helpOverlay_flex st then
    Done (set_helpOverlay_flex false st) []
  else
    match pdfDoc st with
    | None => Done st []
    | Some _ =>
        if key_in (key e)
             ["ArrowUp"; "ArrowDown"; "ArrowLeft"; "ArrowRight"; "PageUp";
              "PageDown"]%string
           && negb (altKey e)
        then Done st []
        else if altKey e && negb (ctrlKey e) && negb (shiftKey e)
                && key_in (key e)
                     ["ArrowUp"; "ArrowDown"; "ArrowLeft"; "ArrowRight"]%string
        then Done st []
        else if (negb (altKey e) && negb (shiftKey e)
                 && ((key e =? "p")%string || (key e =? "P")%string))
                || (ctrlKey e && (key e =? "ArrowLeft")%string)
        then previousPage st
        else if (negb (altKey e) && negb (shiftKey e)
                 && ((key e =? "n")%string || (key e =? "N")%string))
                || (ctrlKey e && (key e =? "ArrowRight")%string)
        then nextPage st
        else if (key e =? "+")%string || (key e =? "=")%string
        then Done (stepUp st) []
        else if (key e =? "-")%string
        then Done (stepDown st) []
        else if negb (altKey e) && negb (ctrlKey e) && negb (shiftKey e)
                && ((key e =? "r")%string || (key e =? "R")%string)
        then
          match pdfData st with
          | Some data => Done (loadPDF data st) []
          | None => Done st []
          end
        else if negb (altKey e) && negb (ctrlKey e) && negb (shiftKey e)
                && ((key e =? "h")%string || (key e =? "H")%string)
        then Done (set_helpOverlay_flex true st) []
        else Done st []
    end.

(** The distance between the two touches of a two-touch event. *)
Definition touch_dist (t0 t1 : Touch) : Q :=
  hypot (clientX t0 - clientX t1) (clientY t0 - clientY t1).

(** [pdfCanvas.addEventListener('touchstart', ...)] *)
Definition touchstart (touches : list Touch) (st : State) : State :=
  match touches with
  | [t] => set_touchStartX (Some (clientX t)) st
  | [t0; t1] => set_touchStartDist (Some (touch_dist t0 t1)) st
  | _ => st
  end.

(** [pdfCanvas.addEventListener('touchmove', ...)]; a baseline is used when
    it is neither [null] nor [0]. *)
Definition touchmove (touches : list Touch) (st : State) : Result :=
  match touches, touchStartDist st with
  | [t0; t1], Some base =>
      if Qeq_bool base 0 then Done st []
      else
        let dist := touch_dist t0 t1 in
        let ratio := dist / base in
        if Qltb 1.1 ratio then
          let st1 := set_scale (scale st * 1.1) st in
          let st2 := set_zoomSelect_value (scale st1) st1 in
          let st3 := renderPage (pageNum st2) st2 in
          Done (set_touchStartDist (Some dist) st3) [ZoomIn]
        else if Qltb ratio 0.9 then
          let st1 := set_scale (scale st / 1.1) st in
          let st2 := set_zoomSelect_value (scale st1) st1 in
          let st3 := renderPage (pageNum st2) st2 in
          Done (set_touchStartDist (Some dist) st3) [ZoomOut]
        else Done st []
  | _, _ => Done st []
  end.

(** [touchStartX=touchStartDist=null;] *)
Definition endSession (st : State) : State :=
  set_touchStartX None (set_touchStartDist None st).

(** [pdfCanvas.addEventListener('touchend', ...)] *)
Definition touchend (changed : list Touch) (st : State) : Result :=
  match touchStartX st, changed with
  | Some startX, [t] =>
      let dx := clientX t - startX in
      if Qltb 50 dx && (1 <? pageNum st)%Z then
        let st1 := set_pageNum (pageNum st - 1) st in
        Done (endSession (renderPage (pageNum st1) st1)) [PrevPage]
      else if Qltb dx (-50) then
        match pdfDoc st with
        | None => TypeError st
        | Some d =>
            if (pageNum st <? numPages d)%Z then
              let st1 := set_pageNum (pageNum st + 1) st in
              Done (endSession (renderPage (pageNum st1) st1)) [NextPage]
            else Done (endSession st) []
        end
      else Done (endSession st) []
  | _, _ => Done (endSession st) []
  end.

(** What can happen to the module: the events it listens to, the user
    changing the checkbox, and the promises it awaits being settled. *)
Inductive Event :=
| FileRead (data : Bytes)
| PrevClick
| NextClick
| ZoomSelected (v : Q)
| RetainToggled (b : bool)
| HelpClick
| HelpOverlayClick
| KeyDown (e : KeyEvent)
| TouchStart (touches : list Touch)
| TouchMove (touches : list Touch)
| TouchEnd (changed : list Touch)
| DocResolved (k : nat) (doc : Doc)
| DocRejected (k : nat)
| PageResolved (k : nat)
| RenderDone (k : nat).

Definition step (st : State) (ev : Event) : Result :=
  match ev with
  | FileRead data => Done (fileRead data st) []
  | PrevClick => previousPage st
  | NextClick => nextPage st
  | ZoomSelected v => Done (zoomSelect_change v st) []
  | RetainToggled b => Done (set_retainViewport_checked b st) []
  | HelpClick => Done (set_helpOverlay_flex true st) []
  | HelpOverlayClick => Done (set_helpOverlay_flex false st) []
  | KeyDown e => keydown e st
  | TouchStart ts => Done (touchstart ts st) []
  | TouchMove ts => touchmove ts st
  | TouchEnd ch => touchend ch st
  | DocResolved k doc => Done (loadPDF_then k doc st) []
  | DocRejected k => Done (loadPDF_rejected k st) []
  | PageResolved k => Done (renderPage_fetched k st) []
  | RenderDone k => Done (renderPage_drawn k st) []
  end.

(** The states passed through, and the intents emitted, when a sequence of
    events is handled in order. *)
Fixpoint trace (st : State) (evs : list Event) : list State :=
  match evs with
  | [] => []
  | ev :: r => let st' := state_of (step st ev) in st' :: trace st' r
  end.

Fixpoint run (st : State) (evs : list Event) : State :=
  match evs with
  | [] => st
  | ev :: r => run (state_of (step st ev)) r
  end.

Fixpoint emitted (st : State) (evs : list Event) : list Intent :=
  match evs with
  | [] => []
  | ev :: r =>
      intents_of (step st ev) ++ emitted (state_of (step st ev)) r
  end.

End Viewer.

(** ** The Next button in the other variants of the module *)

Module Variants.
Section Variants.
Context {P : Platform}.

(** The variant with swipe and pinch but no tooltip:
    [if (!pdfDoc || pageNum >= pdfDoc.numPages) return; pageNum++; renderPage(pageNum);] *)
Definition nextBtn_click_return (st : State) : Result :=
  match pdfDoc st with
  | None => Done st []
  | Some d =>
      if (pageNum st >=? numPages d)%Z then Done st []
      else
        let st1 := set_pageNum (pageNum st + 1) st in
        Done (renderPage (pageNum st1) st1) [NextPage]
  end.

(** The variant with the tooltip and the refresh button:
    [if (pdfDoc && pageNum < pdfDoc.numPages) { pageNum++; renderPage(pageNum); }] *)
Definition nextBtn_click_and (st : State) : Result :=
  match pdfDoc st with
  | None => Done st []
  | Some d =>
      if (pageNum st <? numPages d)%Z then
        let st1 := set_pageNum (pageNum st + 1) st in
        Done (renderPage (pageNum st1) st1) [NextPage]
      else Done st []
  end.

(** [viewer.js]:
    [nextBtn.onclick = () => { if (pageNum < pdfDoc.numPages) { pageNum++; renderPage(pageNum); } };] *)
Definition nextBtn_onclick (st : State) : Result :=
  match pdfDoc st with
  | None => TypeError st
  | Some d =>
      if (pageNum st <? numPages d)%Z then
        let st1 := set_pageNum (pageNum st + 1) st in
        Done (renderPage (pageNum st1) st1) [NextPage]
      else Done st []
  end.

End Variants.
End Variants.

(** ** Properties, as predicates on states and lists *)

(** The page index is within the loaded document, or is still 1 when
    nothing has been loaded. *)
Definition page_in_range (st : State) : Prop :=
  match pdfDoc st with
  | Some d => (1 <= pageNum st <= numPages d)%Z
  | None => pageNum st = 1%Z
  end.

(** A document handed to the module has at least one page. *)
Definition brings_pages (ev : Event) : Prop :=
  match ev with
  | DocResolved _ d => (1 <= numPages d)%Z
  | _ => True
  end.

(** Modelled from the spec: the options of the zoom control are written in
    the page's markup, which is not part of the source; the specification
    states of them that they form "a fixed ordered sequence of allowed
    discrete scale values, ascending, duplicate-free".  Strictly ascending,
    as a check on a list of numbers: *)
Fixpoint ascending (l : list Q) : bool :=
  match l with
  | [] => true
  | x :: r =>
      match r with
      | [] => true
      | y :: _ => Qltb x y && ascending r
      end
  end.

(** The specification's policy for a scale between two steps: the nearest
    member of an ascending list above [x], and the nearest below. *)
Fixpoint nearest_above (x : Q) (l : list Q) : option Q :=
  match l with
  | [] => None
  | y :: r => if Qltb x y then Some y else nearest_above x r
  end.

Fixpoint nearest_below (x : Q) (l : list Q) : option Q :=
  match l with
  | [] => None
  | y :: r =>
      if Qltb y x then
        match nearest_below x r with
        | Some z => Some z
        | None => Some y
        end
      else None
  end.

(** The specification's count for a pinch: how often the ratio of the
    current distance to the baseline exceeds 1.1, the baseline being reset
    to the current distance each time it does. *)
Fixpoint crossings (base : Q) (ds : list Q) : nat :=
  match ds with
  | [] => 0%nat
  | d :: r =>
      if Qltb 1.1 (d / base) then S (crossings d r) else crossings base r
  end.

(** Non-decreasing from a starting value. *)
Fixpoint increasing_from (base : Q) (ds : list Q) : Prop :=
  match ds with
  | [] => True
  | d :: r => base <= d /\ increasing_from d r
  end.

Definition is_intent (i j : Intent) : bool :=
  match i, j with
  | PrevPage, PrevPage | NextPage, NextPage
  | ZoomIn, ZoomIn | ZoomOut, ZoomOut => true
  | _, _ => false
  end.

Definition count_intent (i : Intent) (l : list Intent) : nat :=
  length (filter (is_intent i) l).

(** A two-touch move event, and the distance it reports. *)
Definition move_of (p : Touch * Touch) : Event := TouchMove [fst p; snd p].

Definition dist_of {P : Platform} (p : Touch * Touch) : Q :=
  touch_dist (fst p) (snd p).

(** A rasterisation sits in buffers that were since given the size of
    another page or scale. *)
Definition stale_paint (st : State) : Prop :=
  exists vp, In vp (painted st) /\ canvasFor st <> Some vp.

(** ** A page to run the module in *)

(** An executable stand-in for [Math.hypot], rounded down to a thousandth. *)
Definition hypot_milli (dx dy : Q) : Q :=
  inject_Z (Z.sqrt (Qfloor ((dx * dx + dy * dy) * 1000000))) / 1000.

(** A page whose zoom control offers 50% to 300%. *)
Definition demo : Platform :=
  {| hypot := hypot_milli; zoomSteps := [0.5; 0.75; 1; 1.25; 1.5; 2; 3] |}.

Definition touch_at (x y : Q) : Touch := {| clientX := x; clientY := y |}.

Definition plain_key (k : string) : KeyEvent :=
  {| key := k; altKey := false; ctrlKey := false; shiftKey := false |}.

Definition five_pages : Doc := {| numPages := 5 |}.

(** A file of five pages has been chosen and decoded, its first page
    rendered; the zoom control shows 150%. *)
Definition loaded (retain : bool) : State :=
  run (P := demo) (init 1.5 retain)
    [FileRead [Byte.x25; Byte.x50; Byte.x44; Byte.x46];
     DocResolved 0 five_pages; PageResolved 0; RenderDone 0].

(** Two fingers 100px apart are spread to 111px and lifted: one zoom-in of
    the pinch, which leaves the scale at 1.5 * 1.1. *)
Definition pinched : State :=
  run (P := demo) (loaded false)
    [TouchStart [touch_at 0 0; touch_at 100 0];
     TouchMove [touch_at 0 0; touch_at 111 0];
     TouchEnd [touch_at 111 0]].

(** One finger is down at x = 100. *)
Definition tracking : State :=
  run (P := demo) (loaded false) [TouchStart [touch_at 100 0]].

(** Two fingers are down, 100px apart. *)
Definition pinching : State :=
  run (P := demo) (loaded false)
    [TouchStart [touch_at 0 0; touch_at 100 0]].

(** The second finger moves away in four move events. *)
Definition spread : list (Touch * Touch) :=
  [(touch_at 0 0, touch_at 105 0); (touch_at 0 0, touch_at 111 0);
   (touch_at 0 0, touch_at 120 0); (touch_at 0 0, touch_at 125 0)].

(** Next has been pressed twice and both pages have been rendered: page 3
    of 5. *)
Definition third_page (retain : bool) : State :=
  run (P := demo) (loaded retain)
    [NextClick; PageResolved 1; RenderDone 1;
     NextClick; PageResolved 2; RenderDone 2].

(** ** Coordinate text *)

Module Format.

(** The digits of the decimal representation of [n]; ["0"] for 0. *)
Definition digits (n : N) : string :=
  DecimalString.NilEmpty.string_of_uint (N.to_uint n).

Fixpoint zeros (k : nat) : string :=
  match k with
  | O => EmptyString
  | S k' => String "0" (zeros k')
  end.

(** The integer [n] for which [n / 100 - x] is as close to zero as possible,
    the larger one if there are two; for [x >= 0]. *)
Definition hundredths (x : Q) : N := Z.to_N (Qfloor (x * 100 + 1 / 2)).

(** [x.toFixed(2)] for [0 <= x < 10^21]: the digits of [hundredths x],
    padded with zeros on the left to three digits, with a point before the
    last two. *)
Definition toFixed2_abs (x : Q) : string :=
  let m := digits (hundredths x) in
  let k := String.length m in
  let m := if (k <=? 2)%nat then (zeros (2 + 1 - k) ++ m)%string else m in
  let k := String.length m in
  (substring 0 (k - 2) m ++ "." ++ substring (k - 2) 2 m)%string.

(** [x.toFixed(2)] for [|x| < 10^21]; a negative number is printed as ["-"]
    followed by its absolute value.  (From [10^21] on JavaScript prints an
    exponent, which is not modelled.) *)
Definition toFixed2 (x : Q) : string :=
  if Qltb x 0 then ("-" ++ toFixed2_abs (- x))%string else toFixed2_abs x.

(** [`(${(ptX*PDF_UNIT_CM).toFixed(2)}cm,${(ptY*PDF_UNIT_CM).toFixed(2)}cm)`]
    with [ptX = x/scale], [ptY = y/scale]. *)
Definition coordText (x y scale : Q) : string :=
  ("(" ++ toFixed2 (Coord.toDocumentUnit x scale) ++ "cm,"
       ++ toFixed2 (Coord.toDocumentUnit y scale) ++ "cm)")%string.

(** Reading a printed number back: the text without its point, as a
    decimal number of hundredths. *)
Fixpoint without_point (s : string) : string :=
  match s with
  | EmptyString => EmptyString
  | String c r =>
      if Ascii.eqb c "." then without_point r else String c (without_point r)
  end.

Definition read_hundredths (s : string) : option N :=
  option_map N.of_uint
    (DecimalString.NilEmpty.uint_of_string (without_point s)).

End Format.

(** ** The pointer overlay *)

Module Overlay.

(** [lastCssX], [lastCssY]. *)
Record Pointer := { lastCssX : Q; lastCssY : Q }.

(** What the overlay code reads from the page:
    [pdfCanvas.getBoundingClientRect()], the buffer size of the overlay
    canvas and the device pixel ratio. *)
Record Geometry := {
  rect_left : Q;
  rect_top : Q;
  rect_width : Q;
  rect_height : Q;
  overlay_width : Z;
  overlay_height : Z;
  DPR : Q
}.

Definition TT_OFFSET : Q := 8.

(** What [updateOverlays] leaves behind: the pointer, the text of the
    status line and the tooltip, the tooltip's [left] and [top], and where
    the vertical and the horizontal dashed line are drawn. *)
Record Overlays := {
  pointer : Pointer;
  coordText : string;
  tooltip_left : Q;
  tooltip_top : Q;
  vertical_x : Q;
  horizontal_y : Q
}.

(** [function updateOverlays(cssX, cssY)] *)
Definition updateOverlays (g : Geometry) (scale cssX cssY : Q) : Overlays :=
  let x := Coord.clamp cssX (rect_width g) in
  let y := Coord.clamp cssY (rect_height g) in
  {| pointer := {| lastCssX := x; lastCssY := y |};
     coordText := Format.coordText x y scale;
     tooltip_left := x + TT_OFFSET;
     tooltip_top := y + TT_OFFSET;
     vertical_x := x + 0.5;
     horizontal_y := y + 0.5 |}.

(** [pdfCanvas.addEventListener('mousemove', ...)] *)
Definition mousemove (g : Geometry) (scale clientX clientY : Q) : Overlays :=
  updateOverlays g scale (clientX - rect_left g) (clientY - rect_top g).

(** The [switch(e.key)] of the Alt+Arrow branch, with [s = 1]. *)
Definition nudge (k : string) (g : Geometry) (p : Pointer) : Pointer :=
  if (k =? "ArrowUp")%string then
    {| lastCssX := lastCssX p; lastCssY := Qmax 0 (lastCssY p - 1) |}
  else if (k =? "ArrowDown")%string then
    {| lastCssX := lastCssX p;
       lastCssY := Qmin (inject_Z (overlay_height g) / DPR g) (lastCssY p + 1) |}
  else if (k =? "ArrowLeft")%string then
    {| lastCssX := Qmax 0 (lastCssX p - 1); lastCssY := lastCssY p |}
  else if (k =? "ArrowRight")%string then
    {| lastCssX := Qmin (inject_Z (overlay_width g) / DPR g) (lastCssX p + 1);
       lastCssY := lastCssY p |}
  else p.

(** The pointer after the keydown handler: only the Alt+Arrow branch, which
    ends in [updateOverlays(lastCssX,lastCssY)], moves it. *)
Definition keydown_pointer (e : KeyEvent) (st : State) (g : Geometry)
    (p : Pointer) : Pointer :=
  if (key e =? "Escape")%string && helpOverlay_flex st then p
  else
    match pdfDoc st with
    | None => p
    | Some _ =>
        if key_in (key e)
             ["ArrowUp"; "ArrowDown"; "ArrowLeft"; "ArrowRight"; "PageUp";
              "PageDown"]%string
           && negb (altKey e)
        then p
        else if altKey e && negb (ctrlKey e) && negb (shiftKey e)
                && key_in (key e)
                     ["ArrowUp"; "ArrowDown"; "ArrowLeft"; "ArrowRight"]%string
        then
          let p' := nudge (key e) g p in
          pointer (updateOverlays g (scale st) (lastCssX p') (lastCssY p'))
        else p
    end.

(** The pointer is on the canvas. *)
Definition inside (g : Geometry) (p : Pointer) : Prop :=
  0 <= lastCssX p <= rect_width g /\ 0 <= lastCssY p <= rect_height g.

Definition alt_key (k : string) : KeyEvent :=
  {| key := k; altKey := true; ctrlKey := false; shiftKey := false |}.

End Overlay.

(** ** The tooltip of the variant with the refresh button *)

Module TooltipPlacing.

(** [let left = mouseX + offset; if (left + ttW + margin > canvas.width) {
    left = mouseX - ttW - offset; if (left < margin) left = margin; }]
    with [margin = 5] and [offset = 12]; the handler does the same for
    [top] with [mouseY], [ttH] and [canvas.height]. *)
Definition place (mouse size extent : Q) : Q :=
  let margin := 5 in
  let offset := 12 in
  let left := mouse + offset in
  if Qltb extent (left + size + margin) then
    let left := mouse - size - offset in
    if Qltb left margin then margin else left
  else left.

Definition tooltip_position (mouseX mouseY ttW ttH canvasW canvasH : Q) : Q * Q :=
  (place mouseX ttW canvasW, place mouseY ttH canvasH).

End TooltipPlacing.

(** ** Click to copy *)

Module Copy.

(** The tooltip, the auto-copy box, the timer of the acknowledgement and
    the texts handed to [navigator.clipboard.writeText]. *)
Record Tip := {
  textContent : string;
  display_block : bool;
  autoCopy_checked : bool;
  copyTimeout : option nat;     (* the id of the last timer set, or null *)
  timers : list nat;            (* timers set, not yet fired or cleared *)
  next_timer : nat;
  written : list string         (* oldest first *)
}.

(** [clearTimeout(id)] *)
Definition clearTimeout (id : option nat) (l : list nat) : list nat :=
  match id with
  | None => l
  | Some i => filter (fun j => negb (Nat.eqb j i)) l
  end.

(** [pdfCanvas.addEventListener('click', ...)] *)
Definition click (t : Tip) : Tip :=
  if negb (autoCopy_checked t) then t
  else
    let txt := textContent t in
    {| textContent := ("Copied: " ++ txt)%string;
       display_block := display_block t;
       autoCopy_checked := autoCopy_checked t;
       copyTimeout := Some (next_timer t);
       timers := clearTimeout (copyTimeout t) (timers t) ++ [next_timer t];
       next_timer := S (next_timer t);
       written := written t ++ [txt] |}.

(** The timer of the acknowledgement fires:
    [()=>tooltip.style.display='none']. *)
Definition timer_fired (id : nat) (t : Tip) : Tip :=
  if existsb (Nat.eqb id) (timers t) then
    {| textContent := textContent t;
       display_block := false;
       autoCopy_checked := autoCopy_checked t;
       copyTimeout := copyTimeout t;
       timers := filter (fun j => negb (Nat.eqb j id)) (timers t);
       next_timer := next_timer t;
       written := written t |}
  else t.

(** What [updateOverlays] does to the tooltip. *)
Definition shown (text : string) (t : Tip) : Tip :=
  {| textContent := text;
     display_block := true;
     autoCopy_checked := autoCopy_checked t;
     copyTimeout := copyTimeout t;
     timers := timers t;
     next_timer := next_timer t;
     written := written t |}.

(** [function clearOverlays()], on mouseleave. *)
Definition clearOverlays (t : Tip) : Tip :=
  {| textContent := textContent t;
     display_block := false;
     autoCopy_checked := autoCopy_checked t;
     copyTimeout := copyTimeout t;
     timers := timers t;
     next_timer := next_timer t;
     written := written t |}.

Definition set_autoCopy (b : bool) (t : Tip) : Tip :=
  {| textContent := textContent t;
     display_block := display_block t;
     autoCopy_checked := b;
     copyTimeout := copyTimeout t;
     timers := timers t;
     next_timer := next_timer t;
     written := written t |}.

Inductive TipEvent :=
| MouseMove (g : Overlay.Geometry) (scale clientX clientY : Q)
| MouseLeave
| Click
| TimerFired (id : nat)
| AutoCopyToggled (b : bool).

Definition tip_step (t : Tip) (ev : TipEvent) : Tip :=
  match ev with
  | MouseMove g scale x y =>
      shown (Overlay.coordText (Overlay.mousemove g scale x y)) t
  | MouseLeave => clearOverlays t
  | Click => click t
  | TimerFired id => timer_fired id t
  | AutoCopyToggled b => set_autoCopy b t
  end.

Definition tip_run (t : Tip) (evs : list TipEvent) : Tip :=
  fold_left tip_step evs t.

(** At most one timer is waiting, and it is the one [copyTimeout] names;
    timer ids not yet handed out are not in use. *)
Definition one_timer (t : Tip) : Prop :=
  (timers t = [] \/ exists id, copyTimeout t = Some id /\ timers t = [id]) /\
  (forall id, In id (timers t) -> (id < next_timer t)%nat) /\
  (forall id, copyTimeout t = Some id -> (id < next_timer t)%nat).

(** The page as it is loaded: an empty tooltip, no timer. *)
Definition start (auto : bool) : Tip :=
  {| textContent := ""; display_block := false; autoCopy_checked := auto;
     copyTimeout := None; timers := []; next_timer := 0%nat; written := [] |}.

End Copy.

(** ** The arrow keys and the refresh button of the other variants *)

Module VariantKeys.
Section VariantKeys.
Context {P : Platform}.

(** The variants with swipe and pinch:
    [if (!pdfDoc) return; if (e.key === 'ArrowRight' && pageNum < pdfDoc.numPages) {
    pageNum++; renderPage(pageNum); } else if (e.key === 'ArrowLeft' && pageNum > 1) {
    pageNum--; renderPage(pageNum); }] *)
Definition keydown_guarded (k : string) (st : State) : Result :=
  match pdfDoc st with
  | None => Done st []
  | Some d =>
      if (k =? "ArrowRight")%string && (pageNum st <? numPages d)%Z then
        let st1 := set_pageNum (pageNum st + 1) st in
        Done (renderPage (pageNum st1) st1) [NextPage]
      else if (k =? "ArrowLeft")%string && (1 <? pageNum st)%Z then
        let st1 := set_pageNum (pageNum st - 1) st in
        Done (renderPage (pageNum st1) st1) [PrevPage]
      else Done st []
  end.

(** [viewer.js], where [function renderPage(num) { pdfDoc.getPage(num).then(...) }]
    is not [async]: called without a document it throws. *)
Definition renderPage_sync (num : Z) (out : list Intent) (st : State) : Result :=
  match pdfDoc st with
  | None => TypeError st
  | Some _ => Done (renderPage num st) out
  end.

(** [viewer.js]: the same handler without the first line. *)
Definition keydown_unguarded (k : string) (st : State) : Result :=
  if (k =? "ArrowRight")%string then
    match pdfDoc st with
    | None => TypeError st
    | Some d =>
        if (pageNum st <? numPages d)%Z then
          let st1 := set_pageNum (pageNum st + 1) st in
          renderPage_sync (pageNum st1) [NextPage] st1
        else if (k =? "ArrowLeft")%string && (1 <? pageNum st)%Z then
          let st1 := set_pageNum (pageNum st - 1) st in
          renderPage_sync (pageNum st1) [PrevPage] st1
        else Done st []
    end
  else if (k =? "ArrowLeft")%string && (1 <? pageNum st)%Z then
    let st1 := set_pageNum (pageNum st - 1) st in
    renderPage_sync (pageNum st1) [PrevPage] st1
  else Done st [].

(** The variant with the refresh button: [function loadPDF(data,
    preservePage = false)], whose callback is
    [pdfDoc = doc; if (!preservePage) pageNum = 1; renderPage(pageNum);],
    for the call at position [k]; [l_keep] holds [preservePage]. *)
Definition loadPDF_preserve (data : Bytes) (preservePage : bool) (st : State) : State :=
  set_loads
    (loads st ++ [{| l_data := data; l_keep := preservePage; l_settled := false |}])
    st.

Definition loadPDF_preserve_then (k : nat) (doc : Doc) (st : State) : State :=
  match nth_error (loads st) k with
  | Some (Build_Load data preservePage false) =>
      let st0 :=
        set_loads
          (update k {| l_data := data; l_keep := preservePage; l_settled := true |}
             (loads st)) st in
      let st1 := set_pdfDoc (Some doc) st0 in
      let st2 := if negb preservePage then set_pageNum 1 st1 else st1 in
      renderPage (pageNum st2) st2
  | _ => st
  end.

(** [refreshBtn.addEventListener('click', () => { if (pdfData) { loadPDF(pdfData, true); } })] *)
Definition refreshBtn_click (st : State) : State :=
  match pdfData st with
  | Some data => loadPDF_preserve data true st
  | None => st
  end.

End VariantKeys.
End VariantKeys.

(** ** More properties of states and event sequences *)

Section Sequences.
Context {P : Platform}.

(** Some handler of the sequence stopped at a TypeError. *)
Fixpoint faulted (st : State) (evs : list Event) : bool :=
  match evs with
  | [] => false
  | ev :: r =>
      match step st ev with
      | TypeError _ => true
      | Done st' _ => faulted st' r
      end
  end.

(** How many [getDocument] promises of the sequence were rejected. *)
Definition is_decode_failure (ev : Event) : bool :=
  match ev with DocRejected _ => true | _ => false end.

Definition decode_failures (evs : list Event) : nat :=
  length (filter is_decode_failure evs).

(** The scale, and what the zoom control holds, are members of the zoom
    steps. *)
Definition on_steps (st : State) : Prop :=
  InA Qeq (scale st) zoomSteps /\ InA Qeq (zoomSelect_value st) zoomSteps.

(** An event that is not a pinch move, and that selects, if it selects, one
    of the options of the zoom control. *)
Definition discrete (ev : Event) : Prop :=
  match ev with
  | TouchMove _ => False
  | ZoomSelected v => InA Qeq v zoomSteps
  | _ => True
  end.

(** The render call made last was made for the page index of now; without
    a document no call is waiting. *)
Definition latest_request_current (st : State) : Prop :=
  match pdfDoc st with
  | None => renders st = []
  | Some _ =>
      exists earlier, map r_num (renders st) = earlier ++ [pageNum st]
  end.

(** A buffer is held whenever a load is waiting or a document is shown. *)
Definition buffer_held (st : State) : Prop :=
  (loads st <> [] -> pdfData st <> None) /\
  (pdfDoc st <> None -> pdfData st <> None).

End Sequences.

(** ** More of the page to run the module in *)

(** A canvas of 918 by 1188 CSS pixels at the corner of the window, on a
    display of device pixel ratio 2. *)
Definition demo_geometry : Overlay.Geometry :=
  {| Overlay.rect_left := 0; Overlay.rect_top := 0;
     Overlay.rect_width := 918; Overlay.rect_height := 1188;
     Overlay.overlay_width := 1836; Overlay.overlay_height := 2376;
     Overlay.DPR := 2 |}.

Definition demo_pointer : Overlay.Pointer :=
  {| Overlay.lastCssX := 108; Overlay.lastCssY := 72 |}.

Definition ctrl_left : KeyEvent :=
  {| key := "ArrowLeft"; altKey := false; ctrlKey := true; shiftKey := false |}.

(** A file is chosen and decoded, pages are turned by button, key and
    swipe, the zoom is stepped and pinched, and the file is reloaded. *)
Definition session : list Event :=
  [FileRead [Byte.x25; Byte.x50; Byte.x44; Byte.x46];
   DocResolved 0 five_pages; PageResolved 0; RenderDone 0;
   NextClick; KeyDown (plain_key "n"); KeyDown (plain_key "+");
   TouchStart [touch_at 100 0]; TouchEnd [touch_at 20 0];
   TouchStart [touch_at 0 0; touch_at 100 0];
   TouchMove [touch_at 0 0; touch_at 120 0]; TouchEnd [touch_at 120 0];
   KeyDown (plain_key "r"); DocRejected 1; PrevClick].

(** Zoom keys and selections only. *)
Definition stepping : list Event :=
  [KeyDown (plain_key "+"); ZoomSelected 2; KeyDown (plain_key "-");
   NextClick; KeyDown (plain_key "r"); DocResolved 1 five_pages].

(** * Theorems *)

(** ** Comparisons *)

Lemma Qltb_lt (a b : Q) : Qltb a b = true <-> a < b.
Proof.
  unfold Qltb. rewrite negb_true_iff.
  split; intro H.
  - apply Qnot_le_lt. intro Hle. apply Qle_bool_iff in Hle. congruence.
  - destruct (Qle_bool b a) eqn:E; [|reflexivity].
    apply Qle_bool_iff in E. exfalso. apply (Qlt_not_le _ _ H E).
Qed.

Lemma Qltb_ge (a b : Q) : Qltb a b = false <-> b <= a.
Proof.
  unfold Qltb. rewrite negb_false_iff. apply Qle_bool_iff.
Qed.

(** ** Theorems: coordinate transform *)

Module CoordFacts.
Import Coord.

Lemma clamp_in_bounds (v extent : Q) :
  0 <= extent -> 0 <= clamp v extent <= extent.
Proof.
  intro H. unfold clamp. split.
  - apply Q.le_max_l.
  - apply Q.max_lub; [exact H | apply Q.le_min_r].
Qed.

Lemma toPixel_toDocumentUnit (x s : Q) : ~ s == 0 -> toPixel (toDocumentUnit x s) s == x.
Proof.
  intro Hs. unfold toPixel, toDocumentUnit.
  assert (HU : ~ PDF_UNIT_CM == 0) by (intro H; discriminate H).
  field. split; assumption.
Qed.

Lemma toDocumentUnit_toPixel (d s : Q) : ~ s == 0 -> toDocumentUnit (toPixel d s) s == d.
Proof.
  intro Hs. unfold toPixel, toDocumentUnit.
  assert (HU : ~ PDF_UNIT_CM == 0) by (intro H; discriminate H).
  field. split; assumption.
Qed.

(** C1. For every pixel offset [p] with non-negative coordinates and every
    scale [s > 0], converting [p] to document units and back with [toPixels]
    yields [p] again, and converting a document point to pixels and back
    yields the point again: the two transforms are mutually inverse, exactly,
    over rational arithmetic. *)
Theorem toPixels_toDocumentUnits_inverse (p : Q * Q) (s : Q) :
  0 <= fst p -> 0 <= snd p -> 0 < s ->
  point_eq (toPixels (toDocumentUnits p s) s) p /\
  point_eq (toDocumentUnits (toPixels p s) s) p.
Proof.
  intros _ _ Hs.
  assert (Hs0 : ~ s == 0) by (intro H; rewrite H in Hs; discriminate Hs).
  unfold point_eq, toPixels, toDocumentUnits; simpl.
  repeat split;
    auto using toPixel_toDocumentUnit, toDocumentUnit_toPixel.
Qed.

Lemma toPixels_toDocumentUnits_inverse_witness :
  point_eq (toPixels (toDocumentUnits (108, 72) 1.5) 1.5) (108, 72) /\
  point_eq (toDocumentUnits (toPixels (108, 72) 1.5) 1.5) (108, 72).
Proof.
  apply (toPixels_toDocumentUnits_inverse (108, 72) 1.5); simpl.
  - discriminate.
  - discriminate.
  - reflexivity.
Defined.

Import PrimFloat.

(** On binary64 numbers the round trip of the offset (108, 72) at scale
    1.5 comes back within [2^-40] of where it started. *)
Example toPixel64_toDocumentUnit64_sample :
  close64 (toPixel64 (toDocumentUnit64 108 0x1.8p+0) 0x1.8p+0) 108%float = true /\
  close64 (toPixel64 (toDocumentUnit64 72 0x1.8p+0) 0x1.8p+0) 72%float = true.
Proof. split; vm_compute; reflexivity. Qed.

End CoordFacts.

(** ** Theorems: page navigation *)

Section NavigationFacts.
Context {P : Platform}.

Lemma page_in_range_ext (st st' : State) :
  pdfDoc st' = pdfDoc st -> pageNum st' = pageNum st ->
  page_in_range st -> page_in_range st'.
Proof.
  unfold page_in_range. intros -> ->. trivial.
Qed.

Lemma renderPage_pdfDoc (n : Z) (st : State) :
  pdfDoc (renderPage n st) = pdfDoc st.
Proof. unfold renderPage. destruct (pdfDoc st) eqn:E; simpl; auto. Qed.

Lemma renderPage_pageNum (n : Z) (st : State) :
  pageNum (renderPage n st) = pageNum st.
Proof. unfold renderPage. destruct (pdfDoc st) eqn:E; simpl; auto. Qed.

Lemma renderPage_scale (n : Z) (st : State) :
  scale (renderPage n st) = scale st.
Proof. unfold renderPage. destruct (pdfDoc st) eqn:E; simpl; auto. Qed.

Lemma renderPage_in_range (n : Z) (st : State) :
  page_in_range st -> page_in_range (renderPage n st).
Proof.
  apply page_in_range_ext;
    [apply renderPage_pdfDoc | apply renderPage_pageNum].
Qed.

Lemma previousPage_in_range (st : State) :
  page_in_range st -> page_in_range (state_of (previousPage st)).
Proof.
  unfold previousPage. intro H.
  destruct (1 <? pageNum st)%Z eqn:E; simpl; [|exact H].
  apply renderPage_in_range. apply Z.ltb_lt in E.
  unfold page_in_range in *; simpl. destruct (pdfDoc st); lia.
Qed.

Lemma nextPage_in_range (st : State) :
  page_in_range st -> page_in_range (state_of (nextPage st)).
Proof.
  unfold nextPage. intro H.
  destruct (pdfDoc st) as [d|] eqn:D; simpl; [|exact H].
  destruct (pageNum st <? numPages d)%Z eqn:E; simpl; [|exact H].
  apply renderPage_in_range. apply Z.ltb_lt in E.
  unfold page_in_range in *; simpl. rewrite D in *. lia.
Qed.

Lemma stepUp_in_range (st : State) :
  page_in_range st -> page_in_range (stepUp st).
Proof.
  unfold stepUp. intro H.
  destruct (_ && _); [|exact H].
  apply renderPage_in_range. exact H.
Qed.

Lemma stepDown_in_range (st : State) :
  page_in_range st -> page_in_range (stepDown st).
Proof.
  unfold stepDown. intro H.
  destruct (_ <? _)%Z; [|exact H].
  apply renderPage_in_range. exact H.
Qed.

Lemma keydown_in_range (e : KeyEvent) (st : State) :
  page_in_range st -> page_in_range (state_of (keydown e st)).
Proof.
  intro H. unfold keydown.
  destruct (_ && _); [exact H|].
  destruct (pdfDoc st) as [d|] eqn:D; [|exact H].
  destruct (_ && _); [exact H|].
  destruct (_ && _); [exact H|].
  destruct (_ || _); [apply previousPage_in_range, H|].
  destruct (_ || _); [apply nextPage_in_range, H|].
  destruct (_ || _); [apply stepUp_in_range, H|].
  destruct (_ =? _)%string; [apply stepDown_in_range, H|].
  destruct (_ && _); [destruct (pdfData st); exact H|].
  destruct (_ && _); exact H.
Qed.

Lemma touchmove_in_range (ts : list Touch) (st : State) :
  page_in_range st -> page_in_range (state_of (touchmove ts st)).
Proof.
  intro H. unfold touchmove.
  destruct ts as [|t0 [|t1 [|t2 r]]]; try exact H.
  destruct (touchStartDist st) as [b|]; [|exact H].
  destruct (Qeq_bool b 0); [exact H|].
  destruct (Qltb 1.1 _); simpl.
  - unfold page_in_range; simpl.
    rewrite renderPage_pdfDoc, renderPage_pageNum. exact H.
  - destruct (Qltb _ 0.9); simpl; [|exact H].
    unfold page_in_range; simpl.
    rewrite renderPage_pdfDoc, renderPage_pageNum. exact H.
Qed.

Lemma touchend_in_range (ch : list Touch) (st : State) :
  page_in_range st -> page_in_range (state_of (touchend ch st)).
Proof.
  intro H. unfold touchend.
  destruct (touchStartX st) as [sx|]; [|exact H].
  destruct ch as [|t [|t' r]]; try exact H.
  destruct (_ && _) eqn:E; simpl.
  - apply andb_true_iff in E. destruct E as [_ E]. apply Z.ltb_lt in E.
    unfold endSession, page_in_range in *; simpl.
    rewrite renderPage_pdfDoc, renderPage_pageNum; simpl.
    destruct (pdfDoc st); lia.
  - destruct (Qltb _ (-50)); simpl; [|exact H].
    destruct (pdfDoc st) as [d|] eqn:D; simpl; [|exact H].
    destruct (pageNum st <? numPages d)%Z eqn:E'; simpl; [|exact H].
    apply Z.ltb_lt in E'. unfold endSession, page_in_range in *; simpl.
    rewrite renderPage_pdfDoc, renderPage_pageNum; simpl.
    rewrite D in *. lia.
Qed.

Lemma loadPDF_then_in_range (k : nat) (doc : Doc) (st : State) :
  (1 <= numPages doc)%Z -> page_in_range (loadPDF_then k doc st) \/ loadPDF_then k doc st = st.
Proof.
  intro Hn. unfold loadPDF_then.
  destruct (nth_error (loads st) k) as [[data keep [|]]|]; auto.
  left. apply renderPage_in_range.
  unfold page_in_range; destruct keep; simpl; lia.
Qed.

Lemma step_in_range (st : State) (ev : Event) :
  page_in_range st -> brings_pages ev -> page_in_range (state_of (step st ev)).
Proof.
  intros H Hev. destruct ev; simpl.
  - exact H.
  - apply previousPage_in_range, H.
  - apply nextPage_in_range, H.
  - unfold zoomSelect_change. apply renderPage_in_range. exact H.
  - exact H.
  - exact H.
  - exact H.
  - apply keydown_in_range, H.
  - unfold touchstart.
    destruct touches as [|t0 [|t1 [|t2 r]]]; exact H.
  - apply touchmove_in_range, H.
  - apply touchend_in_range, H.
  - destruct (loadPDF_then_in_range k doc st Hev) as [H'|H']; [exact H'|].
    rewrite H'. exact H.
  - unfold loadPDF_rejected.
    destruct (nth_error (loads st) k) as [[data keep [|]]|]; exact H.
  - unfold renderPage_fetched.
    destruct (nth_error (renders st) k) as [[num [|vp|]]|]; exact H.
  - unfold renderPage_drawn.
    destruct (nth_error (renders st) k) as [[num [|vp|]]|]; try exact H.
    simpl. destruct (pdfDoc st) eqn:D; unfold page_in_range; simpl; rewrite D;
      unfold page_in_range in H; rewrite D in H; exact H.
Qed.

Lemma trace_in_range (evs : list Event) : forall st : State,
  page_in_range st -> Forall brings_pages evs ->
  Forall page_in_range (trace st evs).
Proof.
  induction evs as [|ev r IH]; intros st H Hall; simpl.
  - constructor.
  - inversion Hall as [|? ? Hev Hr]; subst.
    pose proof (step_in_range st ev H Hev) as H'.
    constructor; [exact H'|]. apply IH; assumption.
Qed.

Lemma previousPage_first (st : State) :
  pageNum st = 1%Z -> previousPage st = Done st [].
Proof.
  intro H. unfold previousPage. rewrite H. reflexivity.
Qed.

Lemma nextPage_last (st : State) (d : Doc) :
  pdfDoc st = Some d -> pageNum st = numPages d -> nextPage st = Done st [].
Proof.
  intros D H. unfold nextPage. rewrite D, H, Z.ltb_irrefl. reflexivity.
Qed.

Lemma swipe_right_first (st : State) (sx : Q) (t : Touch) :
  pageNum st = 1%Z -> touchStartX st = Some sx -> 50 < clientX t - sx ->
  touchend [t] st = Done (endSession st) [].
Proof.
  intros H X Hdx. unfold touchend. rewrite X, H. simpl.
  rewrite andb_false_r.
  assert (E : Qltb (clientX t - sx) (-50) = false).
  { apply Qltb_ge. apply Qlt_le_weak. eapply Qlt_trans; [|exact Hdx]. reflexivity. }
  rewrite E. reflexivity.
Qed.

Lemma swipe_left_last (st : State) (d : Doc) (sx : Q) (t : Touch) :
  pdfDoc st = Some d -> pageNum st = numPages d ->
  touchStartX st = Some sx -> clientX t - sx < -50 ->
  touchend [t] st = Done (endSession st) [].
Proof.
  intros D H X Hdx. unfold touchend. rewrite X.
  assert (E : Qltb 50 (clientX t - sx) = false).
  { apply Qltb_ge. apply Qlt_le_weak. eapply Qlt_trans; [exact Hdx|]. reflexivity. }
  rewrite E. simpl.
  apply Qltb_lt in Hdx. rewrite Hdx, D, H, Z.ltb_irrefl. reflexivity.
Qed.

(** C2. Starting from a state whose page index is within the loaded
    document, and for every finite sequence of events in which each
    document delivered has at least one page, the page index is in
    [1, pageCount] after each event; and a request that would leave the
    range does nothing: on the first page the previous-page request (button
    or key) returns the state unchanged and a swipe to the right only ends
    the touch session, and likewise on the last page for next. *)
Theorem page_index_stays_in_range (st : State) (evs : list Event) :
  page_in_range st -> Forall brings_pages evs ->
  Forall page_in_range (trace st evs) /\
  (forall s : State, pageNum s = 1%Z ->
     previousPage s = Done s [] /\
     forall sx t, touchStartX s = Some sx -> 50 < clientX t - sx ->
       touchend [t] s = Done (endSession s) []) /\
  (forall (s : State) (d : Doc), pdfDoc s = Some d -> pageNum s = numPages d ->
     nextPage s = Done s [] /\
     forall sx t, touchStartX s = Some sx -> clientX t - sx < -50 ->
       touchend [t] s = Done (endSession s) []).
Proof.
  intros H Hall. split; [|split].
  - apply trace_in_range; assumption.
  - intros s Hs. split.
    + apply previousPage_first, Hs.
    + intros sx t X Hdx. apply (swipe_right_first s sx t Hs X Hdx).
  - intros s d D Hs. split.
    + apply (nextPage_last s d D Hs).
    + intros sx t X Hdx. apply (swipe_left_last s d sx t D Hs X Hdx).
Qed.

End NavigationFacts.

(** ** Theorems: zoom steps *)

Section ZoomFacts.
Context {P : Platform}.

Lemma ascending_tail (x : Q) (r : list Q) :
  ascending (x :: r) = true -> ascending r = true.
Proof.
  destruct r as [|y r']; [reflexivity|].
  cbn [ascending]. intro H. apply andb_true_iff in H. apply H.
Qed.

Lemma ascending_head_lt (r : list Q) : forall (x : Q) (k : nat),
  ascending (x :: r) = true -> (k < length r)%nat -> x < nth k r 0.
Proof.
  induction r as [|y r' IH]; intros x k H Hk; [simpl in Hk; lia|].
  cbn [ascending] in H. apply andb_true_iff in H. destruct H as [Hxy Hr].
  apply Qltb_lt in Hxy.
  destruct k as [|k']; [exact Hxy|].
  simpl in Hk. cbn [nth].
  apply Qlt_trans with y; [exact Hxy|].
  apply IH; [exact Hr | lia].
Qed.

Lemma ascending_head_notin (x : Q) (r : list Q) :
  ascending (x :: r) = true -> ~ InA Qeq x r.
Proof.
  intros H Hin. apply InA_alt in Hin. destruct Hin as [y [Hxy Hy]].
  apply (In_nth _ _ 0) in Hy. destruct Hy as [k [Hk Hnth]].
  pose proof (ascending_head_lt r x k H Hk) as Hlt.
  rewrite Hnth, <- Hxy in Hlt. exact (Qlt_irrefl _ Hlt).
Qed.

Lemma ascending_NoDupA (l : list Q) : ascending l = true -> NoDupA Qeq l.
Proof.
  induction l as [|x r IH]; intro H; constructor.
  - apply ascending_head_notin, H.
  - apply IH. apply (ascending_tail x r H).
Qed.

Lemma indexOf_from_Qeq (x y : Q) (l : list Q) : forall i : Z,
  x == y -> indexOf_from x l i = indexOf_from y l i.
Proof.
  induction l as [|z r IH]; intros i Hxy; [reflexivity|].
  cbn [indexOf_from].
  assert (E : Qeq_bool z x = Qeq_bool z y).
  { destruct (Qeq_bool z y) eqn:Ey.
    - apply Qeq_bool_iff. apply Qeq_bool_iff in Ey. rewrite Hxy. exact Ey.
    - destruct (Qeq_bool z x) eqn:Ex; [|reflexivity].
      apply Qeq_bool_iff in Ex. apply Qeq_bool_neq in Ey.
      exfalso. apply Ey. rewrite <- Hxy. exact Ex. }
  rewrite E. destruct (Qeq_bool z y); [reflexivity|]. apply IH, Hxy.
Qed.

Lemma indexOf_from_nth (l : list Q) : forall (i : Z) (k : nat),
  ascending l = true -> (k < length l)%nat ->
  indexOf_from (nth k l 0) l i = (i + Z.of_nat k)%Z.
Proof.
  induction l as [|x r IH]; intros i k H Hk; [simpl in Hk; lia|].
  destruct k as [|k']; cbn [nth indexOf_from].
  - rewrite Qeq_bool_refl. lia.
  - simpl in Hk.
    assert (Hlt : x < nth k' r 0) by (apply ascending_head_lt; [exact H | lia]).
    destruct (Qeq_bool x (nth k' r 0)) eqn:E.
    + apply Qeq_bool_iff in E. rewrite E in Hlt.
      exfalso. exact (Qlt_irrefl _ Hlt).
    + rewrite IH; [lia | apply (ascending_tail x r H) | lia].
Qed.

Lemma indexOf_from_absent (x : Q) (l : list Q) : forall i : Z,
  ~ InA Qeq x l -> indexOf_from x l i = (-1)%Z.
Proof.
  induction l as [|y r IH]; intros i Hx; [reflexivity|].
  cbn [indexOf_from].
  destruct (Qeq_bool y x) eqn:E.
  - exfalso. apply Hx. constructor. apply Qeq_bool_iff in E. symmetry. exact E.
  - apply IH. intro Hin. apply Hx. constructor 2. exact Hin.
Qed.

Lemma indexOf_from_present (x : Q) (l : list Q) : forall i : Z,
  (0 <= i)%Z -> InA Qeq x l -> (0 <= indexOf_from x l i)%Z.
Proof.
  induction l as [|y r IH]; intros i Hi Hin; [inversion Hin|].
  cbn [indexOf_from].
  destruct (Qeq_bool y x) eqn:E; [exact Hi|].
  apply IH; [lia|].
  inversion Hin as [? ? Heq|? ? Hin']; subst; [|exact Hin'].
  apply Qeq_bool_neq in E. exfalso. apply E. symmetry. exact Heq.
Qed.

Lemma indexOf_step (st : State) (i : nat) :
  ascending zoomSteps = true -> (i < length zoomSteps)%nat ->
  scale st == nth i zoomSteps 0 ->
  indexOf (scale st) zoomSteps = Z.of_nat i.
Proof.
  intros Hasc Hi Hs. unfold indexOf.
  rewrite (indexOf_from_Qeq _ _ _ _ Hs).
  rewrite indexOf_from_nth by assumption. lia.
Qed.

Lemma stepUp_scale (st : State) (i : nat) :
  indexOf (scale st) zoomSteps = Z.of_nat i ->
  (S i < length zoomSteps)%nat ->
  scale (stepUp st) = nth (S i) zoomSteps 0.
Proof.
  intros Hidx Hi. unfold stepUp. rewrite Hidx.
  assert (E : ((0 <=? Z.of_nat i) && (Z.of_nat i <? Z.of_nat (length zoomSteps) - 1))%Z = true).
  { apply andb_true_iff. split; [apply Z.leb_le | apply Z.ltb_lt]; lia. }
  rewrite E. rewrite renderPage_scale.
  change (step_at (Z.of_nat i + 1) = nth (S i) zoomSteps 0). unfold step_at.
  replace (Z.to_nat (Z.of_nat i + 1)) with (S i) by lia. reflexivity.
Qed.

Lemma stepDown_scale (st : State) (i : nat) :
  indexOf (scale st) zoomSteps = Z.of_nat (S i) ->
  scale (stepDown st) = nth i zoomSteps 0.
Proof.
  intros Hidx. unfold stepDown. rewrite Hidx.
  assert (E : (0 <? Z.of_nat (S i))%Z = true) by (apply Z.ltb_lt; lia).
  rewrite E. rewrite renderPage_scale.
  change (step_at (Z.of_nat (S i) - 1) = nth i zoomSteps 0). unfold step_at.
  replace (Z.to_nat (Z.of_nat (S i) - 1)) with i by lia. reflexivity.
Qed.

(** C4. When the zoom step list is strictly ascending it has no
    duplicates, and for a scale equal to its member of index [i]: if [i] is
    not the top index, stepUp moves the scale to the member of index [i+1]
    and a stepDown after it returns the scale to its original value (if [i]
    is not the bottom index, stepDown moves to index [i-1] and a stepUp
    after it returns); at the top index stepUp leaves the state unchanged,
    and at the bottom index stepDown leaves it unchanged. *)
Theorem zoom_steps_there_and_back (st : State) (i : nat) :
  ascending zoomSteps = true ->
  (i < length zoomSteps)%nat ->
  scale st == nth i zoomSteps 0 ->
  NoDupA Qeq zoomSteps /\
  ((S i < length zoomSteps)%nat ->
     scale (stepUp st) = nth (S i) zoomSteps 0 /\
     scale (stepDown (stepUp st)) == scale st) /\
  ((0 < i)%nat ->
     scale (stepDown st) = nth (pred i) zoomSteps 0 /\
     scale (stepUp (stepDown st)) == scale st) /\
  (S i = length zoomSteps -> stepUp st = st) /\
  (i = 0%nat -> stepDown st = st).
Proof.
  intros Hasc Hi Hs.
  pose proof (indexOf_step st i Hasc Hi Hs) as Hidx.
  split; [apply ascending_NoDupA, Hasc|].
  split; [|split; [|split]].
  - intro Hup.
    pose proof (stepUp_scale st i Hidx Hup) as H1.
    split; [exact H1|].
    assert (Hidx' : indexOf (scale (stepUp st)) zoomSteps = Z.of_nat (S i)).
    { apply indexOf_step; [exact Hasc | exact Hup | rewrite H1; reflexivity]. }
    rewrite (stepDown_scale _ i Hidx'). symmetry. exact Hs.
  - intro Hdown. destruct i as [|j]; [lia|]. cbn [pred].
    pose proof (stepDown_scale st j Hidx) as H1.
    split; [exact H1|].
    assert (Hidx' : indexOf (scale (stepDown st)) zoomSteps = Z.of_nat j).
    { apply indexOf_step; [exact Hasc | lia | rewrite H1; reflexivity]. }
    rewrite (stepUp_scale _ j Hidx' Hi). symmetry. exact Hs.
  - intro Htop. unfold stepUp. rewrite Hidx.
    assert (E : (Z.of_nat i <? Z.of_nat (length zoomSteps) - 1)%Z = false)
      by (apply Z.ltb_ge; lia).
    rewrite E, andb_false_r. reflexivity.
  - intro Hbot. unfold stepDown. rewrite Hidx. subst i. reflexivity.
Qed.

(** C3 (as the code has it). For every current scale that is not a member
    of the zoom step set, stepUp and stepDown do nothing: the state, and
    with it the scale, is unchanged, whatever members lie above or below;
    so are the [+], [=] and [-] keys when a document is loaded. *)
Theorem step_from_scale_off_the_steps (st : State) :
  ~ InA Qeq (scale st) zoomSteps ->
  stepUp st = st /\ stepDown st = st /\
  (forall d : Doc, pdfDoc st = Some d ->
     keydown (plain_key "+") st = Done st [] /\
     keydown (plain_key "=") st = Done st [] /\
     keydown (plain_key "-") st = Done st []).
Proof.
  intro Hout.
  assert (Hidx : indexOf (scale st) zoomSteps = (-1)%Z)
    by (apply indexOf_from_absent, Hout).
  assert (Hup : stepUp st = st) by (unfold stepUp; rewrite Hidx; reflexivity).
  assert (Hdown : stepDown st = st)
    by (unfold stepDown; rewrite Hidx; reflexivity).
  split; [exact Hup|]. split; [exact Hdown|].
  intros d D. unfold keydown. rewrite D. simpl.
  rewrite Hup, Hdown. repeat split; reflexivity.
Qed.

End ZoomFacts.

(** ** Theorems: touch gestures *)

Section GestureFacts.
Context {P : Platform}.

Lemma touchmove_zoom_in (st : State) (base : Q) (t0 t1 : Touch) :
  touchStartDist st = Some base -> 0 < base ->
  1.1 < touch_dist t0 t1 / base ->
  exists st', touchmove [t0; t1] st = Done st' [ZoomIn] /\
    scale st' = scale st * 1.1 /\
    touchStartDist st' = Some (touch_dist t0 t1) /\
    pageNum st' = pageNum st /\ pdfDoc st' = pdfDoc st.
Proof.
  intros B Hb Hr. unfold touchmove. rewrite B.
  assert (E0 : Qeq_bool base 0 = false).
  { destruct (Qeq_bool base 0) eqn:E; [|reflexivity].
    apply Qeq_bool_iff in E. rewrite E in Hb. discriminate Hb. }
  rewrite E0. apply Qltb_lt in Hr. rewrite Hr.
  eexists. split; [reflexivity|]. simpl.
  rewrite renderPage_scale, renderPage_pageNum, renderPage_pdfDoc.
  repeat split.
Qed.

Lemma touchmove_zoom_out (st : State) (base : Q) (t0 t1 : Touch) :
  touchStartDist st = Some base -> 0 < base ->
  touch_dist t0 t1 / base < 0.9 ->
  exists st', touchmove [t0; t1] st = Done st' [ZoomOut] /\
    scale st' = scale st / 1.1 /\
    touchStartDist st' = Some (touch_dist t0 t1) /\
    pageNum st' = pageNum st /\ pdfDoc st' = pdfDoc st.
Proof.
  intros B Hb Hr. unfold touchmove. rewrite B.
  assert (E0 : Qeq_bool base 0 = false).
  { destruct (Qeq_bool base 0) eqn:E; [|reflexivity].
    apply Qeq_bool_iff in E. rewrite E in Hb. discriminate Hb. }
  rewrite E0.
  assert (E1 : Qltb 1.1 (touch_dist t0 t1 / base) = false).
  { apply Qltb_ge. apply Qlt_le_weak. eapply Qlt_trans; [exact Hr|]. reflexivity. }
  rewrite E1. apply Qltb_lt in Hr. rewrite Hr.
  eexists. split; [reflexivity|]. simpl.
  rewrite renderPage_scale, renderPage_pageNum, renderPage_pdfDoc.
  repeat split.
Qed.

Lemma touchmove_within (st : State) (base : Q) (t0 t1 : Touch) :
  touchStartDist st = Some base ->
  0.9 <= touch_dist t0 t1 / base <= 1.1 ->
  touchmove [t0; t1] st = Done st [].
Proof.
  intros B [Hlo Hhi]. unfold touchmove. rewrite B.
  destruct (Qeq_bool base 0); [reflexivity|].
  apply Qltb_ge in Hlo, Hhi. rewrite Hlo, Hhi. reflexivity.
Qed.

Lemma ratio_ge_1 (base d : Q) : 0 < base -> base <= d -> 1 <= d / base.
Proof.
  intros Hb Hd. apply Qle_shift_div_l; [exact Hb|]. rewrite Qmult_1_l. exact Hd.
Qed.

Lemma ratio_gt (base d r : Q) : 0 < base -> r < d / base -> r * base < d.
Proof.
  intros Hb H. apply (Qmult_lt_r _ _ base Hb) in H.
  assert (E : d / base * base == d) by (field; intro Z; rewrite Z in Hb; discriminate Hb).
  rewrite E in H. exact H.
Qed.

Lemma pow11_S (k : nat) : 1.1 ^ Z.of_nat (S k) == 1.1 * 1.1 ^ Z.of_nat k.
Proof.
  rewrite Nat2Z.inj_succ. unfold Z.succ.
  rewrite Qpower_plus by discriminate. rewrite Qmult_comm. reflexivity.
Qed.

Lemma pow11_pos (k : nat) : 0 < 1.1 ^ Z.of_nat k.
Proof. apply Qpower_0_lt. reflexivity. Qed.

Lemma count_intent_app (i : Intent) (a b : list Intent) :
  count_intent i (a ++ b) = (count_intent i a + count_intent i b)%nat.
Proof.
  unfold count_intent. rewrite filter_app, length_app. reflexivity.
Qed.

Lemma increasing_from_weaken (ds : list Q) (b d : Q) :
  b <= d -> increasing_from d ds -> increasing_from b ds.
Proof.
  destruct ds as [|x r]; simpl; [trivial|].
  intros Hbd [Hdx Hr]. split; [|exact Hr].
  apply Qle_trans with d; assumption.
Qed.

Lemma last_nonempty_default (l : list Q) (x a b : Q) :
  last (x :: l) a = last (x :: l) b.
Proof.
  revert x. induction l as [|y r IH]; intro x; [reflexivity|].
  change (last (y :: r) a = last (y :: r) b). apply IH.
Qed.

Lemma last_cons_default (l : list Q) (d base : Q) :
  last (d :: l) base = last l d.
Proof.
  destruct l as [|y r]; [reflexivity|].
  change (last (y :: r) base = last (y :: r) d).
  apply last_nonempty_default.
Qed.

Lemma last_default_le (l : list Q) (b d : Q) :
  b <= d -> last l b <= last l d.
Proof.
  destruct l as [|y r]; intro H; [exact H|].
  rewrite (last_nonempty_default r y b d). apply Qle_refl.
Qed.

Lemma pinch_run (pairs : list (Touch * Touch)) : forall (st : State) (base : Q),
  touchStartDist st = Some base -> 0 < base ->
  increasing_from base (map dist_of pairs) ->
  let evs := map move_of pairs in
  let k := crossings base (map dist_of pairs) in
  count_intent ZoomIn (emitted st evs) = k /\
  count_intent ZoomOut (emitted st evs) = 0%nat /\
  (k <= length pairs)%nat /\
  scale (run st evs) == scale st * 1.1 ^ Z.of_nat k /\
  exists b', touchStartDist (run st evs) = Some b' /\
    base * 1.1 ^ Z.of_nat k <= b' /\
    b' <= last (map dist_of pairs) base.
Proof.
  induction pairs as [|[t0 t1] r IH]; intros st base B Hb Hinc; cbn zeta.
  - simpl. repeat split; try lia.
    + rewrite Qmult_1_r. reflexivity.
    + exists base. split; [exact B|]. split.
      * rewrite Qmult_1_r. apply Qle_refl.
      * apply Qle_refl.
  - cbn [map] in *. cbn [increasing_from] in Hinc. destruct Hinc as [Hd Hinc].
    change (dist_of (t0, t1)) with (touch_dist t0 t1) in *.
    cbn [crossings emitted run length].
    change (step st (move_of (t0, t1))) with (touchmove [t0; t1] st).
    rewrite last_cons_default.
    destruct (Qltb 1.1 (touch_dist t0 t1 / base)) eqn:E.
    + apply Qltb_lt in E.
      destruct (touchmove_zoom_in st base t0 t1 B Hb E)
        as [st' [Hstep [Hscale [Hbase _]]]].
      rewrite Hstep. cbn [intents_of state_of].
      assert (Hd0 : 0 < touch_dist t0 t1)
        by (apply Qlt_le_trans with base; assumption).
      destruct (IH st' (touch_dist t0 t1) Hbase Hd0 Hinc)
        as [Hin [Hout [Hk [Hsc [b' [Hb' [Hlo Hhi]]]]]]].
      rewrite !count_intent_app, Hin, Hout.
      split; [reflexivity|]. split; [reflexivity|]. split; [lia|].
      split.
      * rewrite Hsc, Hscale, pow11_S. ring.
      * exists b'. split; [exact Hb'|]. split; [|exact Hhi].
        apply Qle_trans with (touch_dist t0 t1 * 1.1 ^ Z.of_nat (crossings (touch_dist t0 t1) (map dist_of r))); [|exact Hlo].
        rewrite pow11_S.
        setoid_replace (base * (1.1 * 1.1 ^ Z.of_nat (crossings (touch_dist t0 t1) (map dist_of r))))
          with ((1.1 * base) * 1.1 ^ Z.of_nat (crossings (touch_dist t0 t1) (map dist_of r))) by ring.
        apply Qmult_le_compat_r; [|apply Qlt_le_weak, pow11_pos].
        apply Qlt_le_weak. apply ratio_gt; assumption.
    + assert (Hstep : touchmove [t0; t1] st = Done st []).
      { apply (touchmove_within st base t0 t1 B). split.
        - apply Qle_trans with 1; [discriminate|]. apply ratio_ge_1; assumption.
        - apply Qltb_ge. exact E. }
      rewrite Hstep. cbn [intents_of state_of app].
      destruct (IH st base B Hb (increasing_from_weaken _ _ _ Hd Hinc))
        as [Hin [Hout [Hk [Hsc [b' [Hb' [Hlo Hhi]]]]]]].
      split; [exact Hin|]. split; [exact Hout|]. split; [lia|].
      split; [exact Hsc|].
      exists b'. split; [exact Hb'|]. split; [exact Hlo|].
      apply Qle_trans with (last (map dist_of r) base); [exact Hhi|].
      apply last_default_le, Hd.
Qed.

(** C5. In a pinch session with baseline [base > 0], for every sequence of
    two-touch move events whose distances never decrease, the number of
    zoom-in intents emitted is the number of times the ratio of the current
    distance to the last reset baseline exceeds 1.1 (at most, and in
    general fewer than, the number of events: 1.1 to that power times the
    first baseline is at most the last distance), no zoom-out is emitted,
    and the scale ends multiplied by 1.1 that many times; each zoom-in
    multiplies the scale by 1.1 and resets the baseline to the current
    distance; symmetrically a ratio below 0.9 emits one zoom-out, divides
    the scale by 1.1 and resets the baseline; a ratio in between emits
    nothing and changes nothing. *)
Theorem pinch_ratchet (st : State) (base : Q) (pairs : list (Touch * Touch)) :
  touchStartDist st = Some base -> 0 < base ->
  increasing_from base (map dist_of pairs) ->
  (count_intent ZoomIn (emitted st (map move_of pairs))
     = crossings base (map dist_of pairs) /\
   count_intent ZoomOut (emitted st (map move_of pairs)) = 0%nat /\
   (crossings base (map dist_of pairs) <= length pairs)%nat /\
   scale (run st (map move_of pairs))
     == scale st * 1.1 ^ Z.of_nat (crossings base (map dist_of pairs)) /\
   exists b', touchStartDist (run st (map move_of pairs)) = Some b' /\
     base * 1.1 ^ Z.of_nat (crossings base (map dist_of pairs)) <= b' /\
     b' <= last (map dist_of pairs) base) /\
  (forall t0 t1, 1.1 < touch_dist t0 t1 / base ->
     exists st', touchmove [t0; t1] st = Done st' [ZoomIn] /\
       scale st' = scale st * 1.1 /\
       touchStartDist st' = Some (touch_dist t0 t1)) /\
  (forall t0 t1, touch_dist t0 t1 / base < 0.9 ->
     exists st', touchmove [t0; t1] st = Done st' [ZoomOut] /\
       scale st' = scale st / 1.1 /\
       touchStartDist st' = Some (touch_dist t0 t1)) /\
  (forall t0 t1, 0.9 <= touch_dist t0 t1 / base <= 1.1 ->
     touchmove [t0; t1] st = Done st []).
Proof.
  intros B Hb Hinc. split; [|split; [|split]].
  - exact (pinch_run pairs st base B Hb Hinc).
  - intros t0 t1 H.
    destruct (touchmove_zoom_in st base t0 t1 B Hb H) as [st' [H1 [H2 [H3 _]]]].
    exists st'. auto.
  - intros t0 t1 H.
    destruct (touchmove_zoom_out st base t0 t1 B Hb H) as [st' [H1 [H2 [H3 _]]]].
    exists st'. auto.
  - intros t0 t1 H. exact (touchmove_within st base t0 t1 B H).
Qed.

End GestureFacts.

(** ** Theorems: swipes and touch sessions *)

Section SessionFacts.
Context {P : Platform}.

Lemma renderPage_renders (n : Z) (st : State) (d : Doc) :
  pdfDoc st = Some d ->
  renders (renderPage n st) = renders st ++ [{| r_num := n; r_phase := Fetching |}].
Proof. intro D. unfold renderPage. rewrite D. reflexivity. Qed.

(** C6. In a single-touch session started at [startX], with a document
    loaded, a touch-end with one changed touch at [clientX t] and
    [dx = clientX t - startX]: if [dx > 50] and the page is not the first,
    exactly one previous-page intent is emitted (the page index goes down
    by one and that page is rendered); if [dx < -50] and the page is not
    the last, exactly one next-page intent is emitted; if [-50 <= dx <= 50]
    nothing is emitted and only the session is ended. *)
Theorem swipe_emits_one_intent (st : State) (d : Doc) (startX : Q) (t : Touch) :
  pdfDoc st = Some d -> touchStartX st = Some startX ->
  (50 < clientX t - startX -> (1 < pageNum st)%Z ->
     exists st', touchend [t] st = Done st' [PrevPage] /\
       pageNum st' = (pageNum st - 1)%Z /\
       renders st' =
         renders st ++ [{| r_num := pageNum st - 1; r_phase := Fetching |}] /\
       touchStartX st' = None /\ touchStartDist st' = None) /\
  (clientX t - startX < -50 -> (pageNum st < numPages d)%Z ->
     exists st', touchend [t] st = Done st' [NextPage] /\
       pageNum st' = (pageNum st + 1)%Z /\
       renders st' =
         renders st ++ [{| r_num := pageNum st + 1; r_phase := Fetching |}] /\
       touchStartX st' = None /\ touchStartDist st' = None) /\
  (-50 <= clientX t - startX <= 50 ->
     touchend [t] st = Done (endSession st) []).
Proof.
  intros D X. split; [|split].
  - intros Hdx Hp. unfold touchend. rewrite X.
    apply Qltb_lt in Hdx. apply Z.ltb_lt in Hp. rewrite Hdx, Hp. simpl.
    eexists. split; [reflexivity|]. simpl.
    rewrite renderPage_pageNum.
    rewrite (renderPage_renders _ _ d) by exact D.
    repeat split.
  - intros Hdx Hp. unfold touchend. rewrite X.
    assert (E : Qltb 50 (clientX t - startX) = false).
    { apply Qltb_ge. apply Qlt_le_weak. eapply Qlt_trans; [exact Hdx|]. reflexivity. }
    apply Qltb_lt in Hdx. apply Z.ltb_lt in Hp. rewrite E, Hdx, D, Hp. simpl.
    eexists. split; [reflexivity|]. simpl.
    rewrite renderPage_pageNum.
    rewrite (renderPage_renders _ _ d) by exact D.
    repeat split.
  - intros [Hlo Hhi]. unfold touchend. rewrite X.
    apply Qltb_ge in Hlo, Hhi. rewrite Hlo, Hhi. reflexivity.
Qed.

(** C7 (as the code has it). A touch-start does not discard a session of
    the other kind: with two active touches it sets the baseline distance
    and keeps the single-touch start position; with one it sets the start
    position and keeps the baseline distance; with any other number of
    touches it changes nothing.  Both fields are cleared together by a
    touch-end, which with a document loaded always runs to its end. *)
Theorem touchstart_keeps_other_session (st : State) :
  (forall t0 t1,
     touchStartX (touchstart [t0; t1] st) = touchStartX st /\
     touchStartDist (touchstart [t0; t1] st) = Some (touch_dist t0 t1)) /\
  (forall t,
     touchStartX (touchstart [t] st) = Some (clientX t) /\
     touchStartDist (touchstart [t] st) = touchStartDist st) /\
  (forall ts, length ts <> 1%nat -> length ts <> 2%nat ->
     touchstart ts st = st) /\
  (forall ch st' out, touchend ch st = Done st' out ->
     touchStartX st' = None /\ touchStartDist st' = None) /\
  (forall ch d, pdfDoc st = Some d ->
     exists st' out, touchend ch st = Done st' out).
Proof.
  split; [|split; [|split; [|split]]].
  - intros t0 t1. split; reflexivity.
  - intros t. split; reflexivity.
  - intros [|t0 [|t1 [|t2 r]]] H1 H2; simpl in *; try reflexivity; congruence.
  - intros ch st' out. unfold touchend.
    destruct (touchStartX st) as [sx|];
      [destruct ch as [|t [|t' r]]|]; try (intro H; injection H as <- _; split; reflexivity).
    destruct (_ && _).
    + intro H; injection H as <- _; split; reflexivity.
    + destruct (Qltb _ (-50)).
      * destruct (pdfDoc st) as [d|]; [|discriminate].
        destruct (_ <? _)%Z; intro H; injection H as <- _; split; reflexivity.
      * intro H; injection H as <- _; split; reflexivity.
  - intros ch d D. unfold touchend. rewrite D.
    destruct (touchStartX st) as [sx|];
      [destruct ch as [|t [|t' r]]|]; try (eexists; eexists; reflexivity).
    destruct (_ && _); [eexists; eexists; reflexivity|].
    destruct (Qltb _ (-50)); [|eexists; eexists; reflexivity].
    destruct (_ <? _)%Z; eexists; eexists; reflexivity.
Qed.

End SessionFacts.

(** ** Theorems: reload, rendering, and requests without a document *)

Section LoadFacts.
Context {P : Platform}.

Lemma nth_error_snoc {A} (l : list A) (x : A) :
  nth_error (l ++ [x]) (length l) = Some x.
Proof.
  induction l as [|y r IH]; [reflexivity|exact IH].
Qed.

Lemma nth_error_update {A} (l : list A) : forall (k : nat) (x v : A),
  nth_error l k = Some x -> nth_error (update k v l) k = Some v.
Proof.
  induction l as [|y r IH]; intros [|k] x v H; simpl in *; try discriminate.
  - reflexivity.
  - apply (IH k x v H).
Qed.

Lemma loadPDF_then_pageNum (st : State) (data : Bytes) (doc : Doc) :
  pageNum (loadPDF_then (length (loads st)) doc (loadPDF data st)) =
  if retainViewport_checked st
  then Z.min (Z.max 1 (pageNum st)) (numPages doc)
  else Z.min (Z.max 1 1) (numPages doc).
Proof.
  unfold loadPDF_then, loadPDF. cbn [loads set_loads].
  rewrite nth_error_snoc.
  rewrite renderPage_pageNum.
  destruct (retainViewport_checked st); reflexivity.
Qed.

Lemma loadPDF_then_pdfDoc (st : State) (data : Bytes) (doc : Doc) :
  pdfDoc (loadPDF_then (length (loads st)) doc (loadPDF data st)) = Some doc.
Proof.
  unfold loadPDF_then, loadPDF. cbn [loads set_loads].
  rewrite nth_error_snoc.
  rewrite renderPage_pdfDoc.
  destruct (retainViewport_checked st); reflexivity.
Qed.

(** C8 (as the code has it). With a document loaded and a byte buffer
    held, the [r] / [R] key (no modifier) calls [loadPDF] on the held
    buffer, which leaves the page index as it is until the document
    arrives.  When it arrives, the page index is preserved if the
    retain-viewport box was checked when the key was pressed (and the index
    is within the new page count; in general it is clamped into it), and is
    reset to 1 if the box was not checked. *)
Theorem reload_keeps_page_if_retained (st : State) (d doc : Doc) (data : Bytes) :
  pdfDoc st = Some d -> pdfData st = Some data ->
  keydown (plain_key "r") st = Done (loadPDF data st) [] /\
  keydown (plain_key "R") st = Done (loadPDF data st) [] /\
  loads (loadPDF data st) =
    loads st ++ [{| l_data := data; l_keep := retainViewport_checked st;
                    l_settled := false |}] /\
  pageNum (loadPDF data st) = pageNum st /\
  pdfDoc (loadPDF_then (length (loads st)) doc (loadPDF data st)) = Some doc /\
  (retainViewport_checked st = true ->
     pageNum (loadPDF_then (length (loads st)) doc (loadPDF data st))
       = Z.min (Z.max 1 (pageNum st)) (numPages doc) /\
     ((1 <= pageNum st <= numPages doc)%Z ->
        pageNum (loadPDF_then (length (loads st)) doc (loadPDF data st))
          = pageNum st)) /\
  (retainViewport_checked st = false -> (1 <= numPages doc)%Z ->
     pageNum (loadPDF_then (length (loads st)) doc (loadPDF data st)) = 1%Z).
Proof.
  intros D B.
  split; [unfold keydown; rewrite D; simpl; rewrite B; reflexivity|].
  split; [unfold keydown; rewrite D; simpl; rewrite B; reflexivity|].
  split; [reflexivity|]. split; [reflexivity|].
  split; [apply loadPDF_then_pdfDoc|].
  rewrite loadPDF_then_pageNum. split.
  - intros ->. split; [reflexivity|]. lia.
  - intros ->. lia.
Qed.

Lemma update_snoc {A} (l : list A) (x v : A) :
  update (length l) v (l ++ [x]) = l ++ [v].
Proof.
  induction l as [|y r IH]; [reflexivity|].
  cbn [length app update]. rewrite IH. reflexivity.
Qed.

Lemma render_alone (st : State) (d : Doc) (num : Z) :
  pdfDoc st = Some d ->
  canvasFor
    (renderPage_drawn (length (renders st))
       (renderPage_fetched (length (renders st)) (renderPage num st)))
    = Some {| vp_page := num; vp_scale := scale st |} /\
  painted
    (renderPage_drawn (length (renders st))
       (renderPage_fetched (length (renders st)) (renderPage num st)))
    = [{| vp_page := num; vp_scale := scale st |}] /\
  pageIndicator
    (renderPage_drawn (length (renders st))
       (renderPage_fetched (length (renders st)) (renderPage num st)))
    = Some (pageNum st, numPages d).
Proof.
  intro D.
  assert (E1 : renderPage_fetched (length (renders st)) (renderPage num st) =
               set_renders
                 (renders st ++
                    [{| r_num := num;
                        r_phase := Drawing {| vp_page := num;
                                              vp_scale := scale st |} |}])
                 (set_canvas (Some {| vp_page := num; vp_scale := scale st |})
                    [] st)).
  { unfold renderPage. rewrite D. unfold renderPage_fetched.
    cbn [renders set_renders]. rewrite nth_error_snoc.
    cbn [renders set_renders set_canvas scale]. rewrite update_snoc.
    reflexivity. }
  rewrite E1. unfold renderPage_drawn.
  cbn [renders set_renders set_canvas]. rewrite nth_error_snoc.
  cbn [pdfDoc set_renders set_canvas]. rewrite D.
  repeat split.
Qed.

(** C9 (as the code has it). There is no staleness check.  When the page
    of a render call arrives, the call gives both buffers the size of its
    own page at the scale current at that moment, which clears them, and
    starts rasterising, whatever has been requested since; when its
    rasterisation completes, the result is in the buffers as they then are,
    whatever page and scale are current and whatever the buffers were last
    sized for.  Results are thus applied in the order in which the
    collaborator delivers them.  Only the page indicator is taken from the
    current state: it shows the current page index and page count.  A
    request that is delivered and drawn before anything else happens leaves
    the buffers with the size and the content of its page at the current
    scale. *)
Theorem render_results_applied_as_delivered (st : State) (k : nat) (num : Z) :
  (nth_error (renders st) k = Some {| r_num := num; r_phase := Fetching |} ->
     step st (PageResolved k) = Done (renderPage_fetched k st) [] /\
     canvasFor (renderPage_fetched k st)
       = Some {| vp_page := num; vp_scale := scale st |} /\
     painted (renderPage_fetched k st) = [] /\
     nth_error (renders (renderPage_fetched k st)) k
       = Some {| r_num := num;
                 r_phase := Drawing {| vp_page := num; vp_scale := scale st |} |} /\
     pageNum (renderPage_fetched k st) = pageNum st) /\
  (forall vp : Viewport,
     nth_error (renders st) k = Some {| r_num := num; r_phase := Drawing vp |} ->
     step st (RenderDone k) = Done (renderPage_drawn k st) [] /\
     painted (renderPage_drawn k st) = painted st ++ [vp] /\
     canvasFor (renderPage_drawn k st) = canvasFor st /\
     nth_error (renders (renderPage_drawn k st)) k
       = Some {| r_num := num; r_phase := Finished |} /\
     pageNum (renderPage_drawn k st) = pageNum st /\
     forall d : Doc, pdfDoc st = Some d ->
       pageIndicator (renderPage_drawn k st) = Some (pageNum st, numPages d)) /\
  (forall d : Doc, pdfDoc st = Some d ->
     canvasFor
       (renderPage_drawn (length (renders st))
          (renderPage_fetched (length (renders st)) (renderPage num st)))
       = Some {| vp_page := num; vp_scale := scale st |} /\
     painted
       (renderPage_drawn (length (renders st))
          (renderPage_fetched (length (renders st)) (renderPage num st)))
       = [{| vp_page := num; vp_scale := scale st |}] /\
     pageIndicator
       (renderPage_drawn (length (renders st))
          (renderPage_fetched (length (renders st)) (renderPage num st)))
       = Some (pageNum st, numPages d)).
Proof.
  split; [|split; [|intros d D; exact (render_alone st d num D)]].
  - intro H. split; [reflexivity|].
    assert (E : renderPage_fetched k st =
                set_renders
                  (update k {| r_num := num;
                               r_phase := Drawing {| vp_page := num;
                                                     vp_scale := scale st |} |}
                     (renders st))
                  (set_canvas (Some {| vp_page := num; vp_scale := scale st |})
                     [] st))
      by (unfold renderPage_fetched; rewrite H; reflexivity).
    rewrite E. cbn [canvasFor painted renders pageNum set_renders set_canvas].
    repeat split. apply (nth_error_update _ _ _ _ H).
  - intros vp H. split; [reflexivity|].
    destruct (pdfDoc st) as [d|] eqn:D.
    + assert (E : renderPage_drawn k st =
                  set_pageIndicator (Some (pageNum st, numPages d))
                    (set_renders
                       (update k {| r_num := num; r_phase := Finished |}
                          (renders st))
                       (set_canvas (canvasFor st) (painted st ++ [vp]) st)))
        by (unfold renderPage_drawn; rewrite H; cbn; rewrite D; reflexivity).
      rewrite E.
      cbn [canvasFor painted renders pageNum pageIndicator set_renders
           set_canvas set_pageIndicator].
      repeat split; [apply (nth_error_update _ _ _ _ H)|].
      intros d' [= <-]. reflexivity.
    + assert (E : renderPage_drawn k st =
                  set_rejections (S (rejections st))
                    (set_renders
                       (update k {| r_num := num; r_phase := Finished |}
                          (renders st))
                       (set_canvas (canvasFor st) (painted st ++ [vp]) st)))
        by (unfold renderPage_drawn; rewrite H; cbn; rewrite D; reflexivity).
      rewrite E.
      cbn [canvasFor painted renders pageNum pageIndicator set_renders
           set_canvas set_rejections].
      repeat split; [apply (nth_error_update _ _ _ _ H)|].
      intros d' [=].
Qed.

(** C10 (the fault). With no document loaded, the Next button reads
    [pdfDoc.numPages] of [null] and stops at a TypeError, and so does a
    swipe to the left; the Previous button, the page keys, and the Next
    button of the two variants that test [pdfDoc] first, return with the
    state unchanged. *)
Theorem next_without_document_faults (st : State) :
  pdfDoc st = None ->
  step st NextClick = TypeError st /\
  (forall sx t, touchStartX st = Some sx -> clientX t - sx < -50 ->
     step st (TouchEnd [t]) = TypeError st) /\
  (pageNum st = 1%Z -> step st PrevClick = Done st []) /\
  (forall e, step st (KeyDown e) = Done st [] \/
     step st (KeyDown e) = Done (set_helpOverlay_flex false st) []) /\
  Variants.nextBtn_click_return st = Done st [] /\
  Variants.nextBtn_click_and st = Done st [] /\
  Variants.nextBtn_onclick st = TypeError st.
Proof.
  intro D. split; [|split; [|split; [|split; [|split; [|split]]]]].
  - simpl. unfold nextPage. rewrite D. reflexivity.
  - intros sx t X Hdx. simpl. unfold touchend. rewrite X.
    assert (E : Qltb 50 (clientX t - sx) = false).
    { apply Qltb_ge. apply Qlt_le_weak. eapply Qlt_trans; [exact Hdx|]. reflexivity. }
    apply Qltb_lt in Hdx. rewrite E, Hdx, D. reflexivity.
  - intro Hp. simpl. apply previousPage_first, Hp.
  - intro e. simpl. unfold keydown. rewrite D.
    destruct (_ && _); auto.
  - unfold Variants.nextBtn_click_return. rewrite D. reflexivity.
  - unfold Variants.nextBtn_click_and. rewrite D. reflexivity.
  - unfold Variants.nextBtn_onclick. rewrite D. reflexivity.
Qed.

End LoadFacts.

(** ** The theorems on a page *)

Section OnAPage.
#[local] Existing Instance demo.

Lemma absent_by_indexOf (x : Q) (l : list Q) :
  indexOf x l = (-1)%Z -> ~ InA Qeq x l.
Proof.
  intros H Hin.
  pose proof (indexOf_from_present x l 0%Z (Z.le_refl 0) Hin) as H0.
  unfold indexOf in H. lia.
Qed.

Lemma page_index_stays_in_range_witness :
  page_in_range (loaded false) /\
  Forall page_in_range
    (trace (loaded false)
       [NextClick; KeyDown (plain_key "n"); TouchStart [touch_at 100 0];
        TouchEnd [touch_at 20 0]; KeyDown (plain_key "r");
        DocResolved 1 {| numPages := 2 |}; PrevClick; PrevClick]).
Proof.
  assert (H : page_in_range (loaded false)) by (vm_compute; split; discriminate).
  split; [exact H|].
  apply (page_index_stays_in_range (loaded false)); [exact H|].
  repeat constructor. vm_compute. discriminate.
Defined.

Lemma step_from_scale_off_the_steps_witness :
  ~ InA Qeq (scale pinched) zoomSteps /\
  stepUp pinched = pinched /\ stepDown pinched = pinched.
Proof.
  assert (H : ~ InA Qeq (scale pinched) zoomSteps)
    by (apply absent_by_indexOf; (vm_compute; reflexivity)).
  split; [exact H|].
  destruct (step_from_scale_off_the_steps pinched H) as [Hup [Hdown _]].
  split; assumption.
Defined.

(** C3, as stated, fails: after a pinch the scale is 1.65, between the
    steps 1.5 and 2; the [+] key does not move it to 2 and the [-] key does
    not move it to 1.5: both leave the state as it is. *)
Lemma stepUp_after_pinch_stays_off_steps :
  scale pinched == 1.65 /\
  ~ InA Qeq (scale pinched) zoomSteps /\
  nearest_above (scale pinched) zoomSteps = Some 2 /\
  nearest_below (scale pinched) zoomSteps = Some 1.5 /\
  ~ scale (stepUp pinched) == 2 /\
  ~ scale (stepDown pinched) == 1.5 /\
  step pinched (KeyDown (plain_key "+")) = Done pinched [] /\
  step pinched (KeyDown (plain_key "-")) = Done pinched [].
Proof.
  split; [(vm_compute; reflexivity)|].
  split; [apply absent_by_indexOf; (vm_compute; reflexivity)|].
  split; [(vm_compute; reflexivity)|]. split; [(vm_compute; reflexivity)|].
  split; [vm_compute; intro H; discriminate H|].
  split; [vm_compute; intro H; discriminate H|].
  split; (vm_compute; reflexivity).
Qed.

Lemma zoom_steps_there_and_back_witness :
  NoDupA Qeq zoomSteps /\
  scale (stepUp (loaded false)) = 2 /\
  scale (stepDown (stepUp (loaded false))) == scale (loaded false).
Proof.
  destruct (zoom_steps_there_and_back (loaded false) 4) as [Hnd [Hup _]].
  - (vm_compute; reflexivity).
  - simpl. lia.
  - (vm_compute; reflexivity).
  - split; [exact Hnd|]. apply Hup. simpl. lia.
Defined.

Lemma pinch_ratchet_witness :
  count_intent ZoomIn (emitted pinching (map move_of spread)) = 2%nat /\
  scale (run pinching (map move_of spread)) == 1.5 * 1.1 ^ 2.
Proof.
  destruct (pinch_ratchet pinching (100000 # 1000) spread) as [[Hin [_ [_ [Hsc _]]]] _].
  - (vm_compute; reflexivity).
  - (vm_compute; reflexivity).
  - vm_compute. repeat split; discriminate.
  - split; [exact Hin | exact Hsc].
Defined.

Lemma swipe_emits_one_intent_witness :
  exists st', touchend [touch_at 40 0] tracking = Done st' [NextPage] /\
    pageNum st' = 2%Z.
Proof.
  destruct (swipe_emits_one_intent tracking five_pages 100 (touch_at 40 0))
    as [_ [Hnext _]].
  - (vm_compute; reflexivity).
  - (vm_compute; reflexivity).
  - destruct Hnext as [st' [H1 [H2 _]]].
    + (vm_compute; reflexivity).
    + (vm_compute; reflexivity).
    + exists st'. split; [exact H1 | exact H2].
Defined.

Lemma touchstart_keeps_other_session_witness :
  touchStartX (touchstart [touch_at 100 0; touch_at 200 0] tracking)
    = Some 100.
Proof.
  destruct (touchstart_keeps_other_session tracking) as [H _].
  destruct (H (touch_at 100 0) (touch_at 200 0)) as [H1 _].
  rewrite H1. (vm_compute; reflexivity).
Defined.

(** C7, as stated, fails: a finger goes down at x = 100, a second one at
    x = 200 turns the session into a pinch, and the start position 100 is
    still held; when the second finger is lifted at x = 40 the touch-end
    takes it for a swipe of -60 from the first finger's start and turns to
    the next page. *)
Lemma pinch_then_lift_swipes :
  touchStartX tracking = Some 100 /\
  touchStartX (touchstart [touch_at 100 0; touch_at 200 0] tracking)
    = Some 100 /\
  touchStartDist (touchstart [touch_at 100 0; touch_at 200 0] tracking)
    = Some (100000 # 1000) /\
  emitted tracking
    [TouchStart [touch_at 100 0; touch_at 200 0];
     TouchMove [touch_at 100 0; touch_at 150 0];
     TouchEnd [touch_at 40 0]] = [ZoomOut; NextPage] /\
  pageNum
    (run tracking
       [TouchStart [touch_at 100 0; touch_at 200 0];
        TouchMove [touch_at 100 0; touch_at 150 0];
        TouchEnd [touch_at 40 0]]) = 2%Z.
Proof.
  repeat split; vm_compute; reflexivity.
Qed.

Lemma reload_keeps_page_if_retained_witness :
  pageNum (third_page true) = 3%Z /\
  pageNum
    (loadPDF_then (length (loads (third_page true))) five_pages
       (state_of (keydown (plain_key "r") (third_page true)))) = 3%Z.
Proof.
  split; [(vm_compute; reflexivity)|].
  destruct (reload_keeps_page_if_retained (third_page true) five_pages
              five_pages [Byte.x25; Byte.x50; Byte.x44; Byte.x46])
    as [Hkey [_ [_ [_ [_ [Hkeep _]]]]]].
  - (vm_compute; reflexivity).
  - (vm_compute; reflexivity).
  - rewrite Hkey. destruct (Hkeep eq_refl) as [_ Hsame].
    cbn [state_of]. rewrite Hsame; [(vm_compute; reflexivity)|].
    vm_compute. split; discriminate.
Defined.

(** C8, as stated, fails: on page 3 of a five-page document, with the
    retain-viewport box unchecked, the [r] key reloads the held buffer and
    the page index is 1 when the same document has arrived. *)
Lemma reload_resets_page_when_not_retained :
  pageNum (third_page false) = 3%Z /\
  pdfDoc (third_page false) = Some five_pages /\
  retainViewport_checked (third_page false) = false /\
  pageNum
    (run (third_page false)
       [KeyDown (plain_key "r"); DocResolved 1 five_pages]) = 1%Z /\
  pageNum
    (run (third_page false)
       [KeyDown (plain_key "R"); DocResolved 1 five_pages]) = 1%Z.
Proof.
  repeat split; vm_compute; reflexivity.
Qed.

Lemma render_results_applied_as_delivered_witness :
  painted
    (renderPage_drawn 1
       (run (loaded true) [NextClick; PageResolved 1; NextClick; PageResolved 2]))
  = [{| vp_page := 2; vp_scale := 1.5 |}].
Proof.
  destruct (render_results_applied_as_delivered
              (run (loaded true)
                 [NextClick; PageResolved 1; NextClick; PageResolved 2])
              1 2) as [_ [H _]].
  destruct (H {| vp_page := 2; vp_scale := 1.5 |}) as [_ [Hp _]].
  - (vm_compute; reflexivity).
  - rewrite Hp. (vm_compute; reflexivity).
Defined.

(** C9, as stated, fails: Next is pressed, page 2 arrives and its
    rasterisation starts; Next is pressed again, page 3 arrives and the
    buffers are given its size; then the rasterisation of page 2 completes
    into them.  And when page 3 is delivered and drawn before page 2, the
    buffers end with the size and the content of page 2 while the page
    index, and the indicator, say 3. *)
Lemma stale_render_is_painted :
  (let st := run (loaded true)
               [NextClick; PageResolved 1; NextClick; PageResolved 2;
                RenderDone 1] in
   pageNum st = 3%Z /\
   canvasFor st = Some {| vp_page := 3; vp_scale := 1.5 |} /\
   painted st = [{| vp_page := 2; vp_scale := 1.5 |}] /\
   stale_paint st) /\
  (let st := run (loaded true)
               [NextClick; NextClick; PageResolved 2; RenderDone 2;
                PageResolved 1; RenderDone 1] in
   pageNum st = 3%Z /\
   canvasFor st = Some {| vp_page := 2; vp_scale := 1.5 |} /\
   painted st = [{| vp_page := 2; vp_scale := 1.5 |}] /\
   pageIndicator st = Some (3%Z, 5%Z)).
Proof.
  split; cbv zeta.
  - split; [(vm_compute; reflexivity)|]. split; [(vm_compute; reflexivity)|]. split; [(vm_compute; reflexivity)|].
    unfold stale_paint. vm_compute.
    exists {| vp_page := 2; vp_scale := 1.5 |}. split.
    + left. reflexivity.
    + intro H. discriminate H.
  - repeat split; vm_compute; reflexivity.
Qed.

Lemma next_without_document_faults_witness :
  step (init 1.5 false) NextClick = TypeError (init 1.5 false) /\
  Variants.nextBtn_click_return (init 1.5 false) = Done (init 1.5 false) [].
Proof.
  destruct (next_without_document_faults (init 1.5 false))
    as [H [_ [_ [_ [Hreturn _]]]]].
  - (vm_compute; reflexivity).
  - split; [exact H | exact Hreturn].
Defined.

End OnAPage.

(** ** Theorems: what every event keeps *)

Section KeptByEvents.
Context {P : Platform}.

Ltac break_step :=
  repeat match goal with
    | |- context [if ?c then _ else _] => destruct c eqn:?
    | |- context [match ?x with _ => _ end] => destruct x eqn:?
    end.

Ltac open_step :=
  cbn [step state_of]; unfold keydown;
  unfold fileRead, loadPDF, previousPage, nextPage, zoomSelect_change,
    stepUp, stepDown, touchstart, touchmove, touchend,
    loadPDF_then, loadPDF_rejected, renderPage_fetched, renderPage_drawn,
    endSession, renderPage.

Lemma trace_keeps (I : State -> Prop) (V : Event -> Prop) :
  (forall st ev, I st -> V ev -> I (state_of (step st ev))) ->
  forall (evs : list Event) (st : State),
    I st -> Forall V evs -> Forall I (trace st evs).
Proof.
  intros Hstep evs. induction evs as [|ev r IH]; intros st HI HV; simpl.
  - constructor.
  - inversion HV as [|? ? Hev Hr]; subst.
    constructor; [apply Hstep; assumption|].
    apply IH; [apply Hstep; assumption | exact Hr].
Qed.

Lemma run_keeps (I : State -> Prop) (V : Event -> Prop) :
  (forall st ev, I st -> V ev -> I (state_of (step st ev))) ->
  forall (evs : list Event) (st : State),
    I st -> Forall V evs -> I (run st evs).
Proof.
  intros Hstep evs. induction evs as [|ev r IH]; intros st HI HV; simpl.
  - exact HI.
  - inversion HV as [|? ? Hev Hr]; subst.
    apply IH; [apply Hstep; assumption | exact Hr].
Qed.

Lemma Forall_True {A} (l : list A) : Forall (fun _ => True) l.
Proof. induction l; constructor; trivial. Qed.

Lemma step_at_member (i : Z) :
  (0 <= i < Z.of_nat (length zoomSteps))%Z -> InA Qeq (step_at i) zoomSteps.
Proof.
  intro Hi. unfold step_at. apply In_InA; [apply Q_Setoid|].
  apply nth_In. lia.
Qed.

Lemma indexOf_from_bound (x : Q) (l : list Q) : forall i : Z,
  (indexOf_from x l i < i + Z.of_nat (length l))%Z \/
  indexOf_from x l i = (-1)%Z.
Proof.
  induction l as [|y r IH]; intro i; [right; reflexivity|].
  cbn [indexOf_from length]. destruct (Qeq_bool y x); [left; lia|].
  destruct (IH (i + 1)%Z) as [H|H]; [left; lia|right; exact H].
Qed.

Lemma indexOf_lt_length (x : Q) (l : list Q) :
  (indexOf x l < Z.of_nat (length l))%Z.
Proof.
  unfold indexOf. destruct (indexOf_from_bound x l 0) as [H|H]; lia.
Qed.

Lemma step_on_steps (st : State) (ev : Event) :
  on_steps st -> discrete ev -> on_steps (state_of (step st ev)).
Proof.
  unfold on_steps. intros [Hs Hz] Hev.
  assert (Hup : forall i, (0 <=? i)%Z && (i <? Z.of_nat (length zoomSteps) - 1)%Z = true ->
                          InA Qeq (step_at (i + 1)) zoomSteps).
  { intros i Hi. apply andb_true_iff in Hi. destruct Hi as [H0 H1].
    apply Z.leb_le in H0. apply Z.ltb_lt in H1. apply step_at_member. lia. }
  assert (Hdown : (0 <? indexOf (scale st) zoomSteps)%Z = true ->
                  InA Qeq (step_at (indexOf (scale st) zoomSteps - 1)) zoomSteps).
  { intros Hi. apply Z.ltb_lt in Hi. apply step_at_member.
    pose proof (indexOf_lt_length (scale st) zoomSteps). lia. }
  destruct ev; try contradiction; open_step; break_step; cbn;
    try (split; assumption); try (split; apply Hup; assumption);
    try (split; apply Hdown; assumption);
    try (split; apply Hdown; reflexivity).
Qed.

(** Stepping stays on the steps: when the scale and the zoom control hold
    members of the zoom step list, they still do after every event of a
    sequence that has no pinch move and selects only options of the
    control. *)
Theorem discrete_zoom_stays_on_steps (st : State) (evs : list Event) :
  on_steps st -> Forall discrete evs -> Forall on_steps (trace st evs).
Proof.
  intros H Hall.
  apply (trace_keeps on_steps discrete); [|exact H|exact Hall].
  intros s ev Hs Hev. apply step_on_steps; assumption.
Qed.

Lemma nth_error_nonempty {A} (l : list A) (k : nat) (x : A) :
  nth_error l k = Some x -> l <> [].
Proof. intros H ->. destruct k; discriminate H. Qed.

Lemma step_buffer_held (st : State) (ev : Event) :
  buffer_held st -> buffer_held (state_of (step st ev)).
Proof.
  unfold buffer_held. intros [Hl Hd].
  destruct ev; open_step; break_step; cbn in *;
    split; intros;
    try first [ congruence
          | apply Hl; first [assumption | eapply nth_error_nonempty; eassumption]
          | apply Hd; congruence
          | exfalso; apply Hd; [discriminate | reflexivity]
          | exfalso; apply Hl; [assumption | reflexivity] ].
Qed.

(** A document is never shown without its bytes: from the initial state,
    after any sequence of events, a loaded document implies a held buffer,
    and then the [r] key without modifiers always issues a reload of that
    buffer. *)
Theorem shown_document_can_be_reloaded (sel : Q) (retain : bool) (evs : list Event) :
  forall d : Doc, pdfDoc (run (init sel retain) evs) = Some d ->
  exists data : Bytes,
    pdfData (run (init sel retain) evs) = Some data /\
    keydown (plain_key "r") (run (init sel retain) evs)
    = Done (loadPDF data (run (init sel retain) evs)) [].
Proof.
  intros d D.
  assert (H : buffer_held (run (init sel retain) evs)).
  { apply (run_keeps buffer_held (fun _ => True)).
    - intros s ev Hs _. apply step_buffer_held, Hs.
    - split; intro H; exfalso; apply H; reflexivity.
    - apply Forall_True. }
  destruct H as [_ H].
  destruct (pdfData (run (init sel retain) evs)) as [data|] eqn:B.
  - exists data. split; [reflexivity|].
    unfold keydown. rewrite D. simpl. rewrite B. reflexivity.
  - exfalso. apply H; [rewrite D; discriminate|reflexivity].
Qed.

Lemma step_loaded (st : State) (ev : Event) (d : Doc) :
  pdfDoc st = Some d ->
  exists st' out d',
    step st ev = Done st' out /\ pdfDoc st' = Some d' /\
    (rejections st' <= rejections st + (if is_decode_failure ev then 1 else 0))%nat.
Proof.
  intro D.
  destruct ev; open_step; break_step; cbn in *; try congruence;
    do 3 eexists; (split; [reflexivity|]); cbn; (split; [try eassumption; reflexivity|]); lia.
Qed.

Lemma run_loaded (evs : list Event) : forall (st : State) (d : Doc),
  pdfDoc st = Some d ->
  faulted st evs = false /\
  (exists d', pdfDoc (run st evs) = Some d') /\
  (rejections (run st evs) <= rejections st + decode_failures evs)%nat.
Proof.
  induction evs as [|ev r IH]; intros st d D.
  - simpl. split; [reflexivity|]. split; [exists d; exact D|].
    unfold decode_failures; simpl; lia.
  - destruct (step_loaded st ev d D) as [st' [out [d' [Hstep [D' Hrej]]]]].
    destruct (IH st' d' D') as [Hf [Hd Hr]].
    cbn [faulted run]. rewrite Hstep. cbn [state_of].
    split; [exact Hf|]. split; [exact Hd|].
    unfold decode_failures in *. cbn [filter].
    destruct (is_decode_failure ev); cbn [length]; lia.
Qed.

(** Once a document is loaded the module stays usable: in any sequence of
    events no handler stops at a TypeError, the document handle is never
    null again, and the only promises rejected without a handler are
    failed decodes. *)
Theorem loaded_module_stays_usable (st : State) (d : Doc) (evs : list Event) :
  pdfDoc st = Some d ->
  faulted st evs = false /\
  (exists d', pdfDoc (run st evs) = Some d') /\
  (rejections (run st evs) <= rejections st + decode_failures evs)%nat.
Proof. apply run_loaded. Qed.

End KeptByEvents.

(** ** Theorems: render requests and pinch moves *)

Section RequestFacts.
Context {P : Platform}.

Lemma map_r_num_update (l : list RenderTask) : forall (k : nat) (num : Z) (ph ph' : Phase),
  nth_error l k = Some {| r_num := num; r_phase := ph |} ->
  map r_num (update k {| r_num := num; r_phase := ph' |} l) = map r_num l.
Proof.
  induction l as [|t r IH]; intros [|k] num ph ph' H; simpl in *; try discriminate.
  - injection H as ->. reflexivity.
  - f_equal. apply (IH k num ph ph' H).
Qed.

Lemma latest_ext (st st' : State) :
  pdfDoc st' = pdfDoc st -> pageNum st' = pageNum st ->
  map r_num (renders st') = map r_num (renders st) ->
  latest_request_current st -> latest_request_current st'.
Proof.
  unfold latest_request_current. intros -> -> E H.
  destruct (pdfDoc st).
  - rewrite E. exact H.
  - rewrite H in E. destruct (renders st'); [reflexivity|discriminate E].
Qed.

Lemma latest_renderPage (st : State) :
  (pdfDoc st = None -> renders st = []) ->
  latest_request_current (renderPage (pageNum st) st).
Proof.
  intro H. unfold latest_request_current, renderPage.
  destruct (pdfDoc st) as [d|] eqn:D; cbn; rewrite D.
  - exists (map r_num (renders st)). rewrite map_app. reflexivity.
  - apply H. reflexivity.
Qed.

Lemma latest_no_doc (st : State) :
  latest_request_current st -> pdfDoc st = None -> renders st = [].
Proof.
  unfold latest_request_current. intros H D. rewrite D in H. exact H.
Qed.

Lemma latest_previousPage (st : State) :
  latest_request_current st -> latest_request_current (state_of (previousPage st)).
Proof.
  intro H. unfold previousPage. destruct (1 <? pageNum st)%Z; cbn [state_of]; [|exact H].
  apply (latest_renderPage (set_pageNum (pageNum st - 1) st)).
  apply (latest_no_doc st H).
Qed.

Lemma latest_nextPage (st : State) :
  latest_request_current st -> latest_request_current (state_of (nextPage st)).
Proof.
  intro H. unfold nextPage. destruct (pdfDoc st) as [d|] eqn:D; cbn [state_of]; [|exact H].
  destruct (pageNum st <? numPages d)%Z; cbn [state_of]; [|exact H].
  apply (latest_renderPage (set_pageNum (pageNum st + 1) st)).
  apply (latest_no_doc st H).
Qed.

Lemma latest_stepUp (st : State) :
  latest_request_current st -> latest_request_current (stepUp st).
Proof.
  intro H. unfold stepUp. destruct (_ && _); [|exact H].
  match goal with |- latest_request_current (renderPage _ ?s) =>
    apply (latest_renderPage s) end.
  apply (latest_no_doc st H).
Qed.

Lemma latest_stepDown (st : State) :
  latest_request_current st -> latest_request_current (stepDown st).
Proof.
  intro H. unfold stepDown. destruct (_ <? _)%Z; [|exact H].
  match goal with |- latest_request_current (renderPage _ ?s) =>
    apply (latest_renderPage s) end.
  apply (latest_no_doc st H).
Qed.

Lemma latest_keydown (e : KeyEvent) (st : State) :
  latest_request_current st -> latest_request_current (state_of (keydown e st)).
Proof.
  intro H. unfold keydown.
  destruct (_ && _); [exact H|].
  destruct (pdfDoc st) as [d|] eqn:D; [|exact H].
  destruct (_ && _); [exact H|].
  destruct (_ && _); [exact H|].
  destruct (_ || _); [apply latest_previousPage, H|].
  destruct (_ || _); [apply latest_nextPage, H|].
  destruct (_ || _); [apply latest_stepUp, H|].
  destruct (_ =? _)%string; [apply latest_stepDown, H|].
  destruct (_ && _); [destruct (pdfData st); exact H|].
  destruct (_ && _); exact H.
Qed.

Lemma latest_touchmove (ts : list Touch) (st : State) :
  latest_request_current st -> latest_request_current (state_of (touchmove ts st)).
Proof.
  intro H. unfold touchmove.
  destruct ts as [|t0 [|t1 [|t2 r]]]; try exact H.
  destruct (touchStartDist st) as [b|]; [|exact H].
  destruct (Qeq_bool b 0); [exact H|].
  destruct (Qltb 1.1 _); cbn [state_of].
  - match goal with |- latest_request_current (set_touchStartDist _ (renderPage _ ?s)) =>
      apply (latest_ext (renderPage (pageNum s) s)); try reflexivity;
      apply (latest_renderPage s) end.
    apply (latest_no_doc st H).
  - destruct (Qltb _ 0.9); cbn [state_of]; [|exact H].
    match goal with |- latest_request_current (set_touchStartDist _ (renderPage _ ?s)) =>
      apply (latest_ext (renderPage (pageNum s) s)); try reflexivity;
      apply (latest_renderPage s) end.
    apply (latest_no_doc st H).
Qed.

Lemma latest_touchend (ch : list Touch) (st : State) :
  latest_request_current st -> latest_request_current (state_of (touchend ch st)).
Proof.
  intro H. unfold touchend.
  destruct (touchStartX st) as [sx|]; [|exact H].
  destruct ch as [|t [|t' r]]; try exact H.
  destruct (_ && _); cbn [state_of].
  - match goal with |- latest_request_current (endSession (renderPage _ ?s)) =>
      apply (latest_ext (renderPage (pageNum s) s)); try reflexivity;
      apply (latest_renderPage s) end.
    apply (latest_no_doc st H).
  - destruct (Qltb _ (-50)); cbn [state_of]; [|exact H].
    destruct (pdfDoc st) as [d|] eqn:D; cbn [state_of]; [|exact H].
    destruct (_ <? _)%Z; cbn [state_of]; [|exact H].
    match goal with |- latest_request_current (endSession (renderPage _ ?s)) =>
      apply (latest_ext (renderPage (pageNum s) s)); try reflexivity;
      apply (latest_renderPage s) end.
    apply (latest_no_doc st H).
Qed.

Lemma step_latest (st : State) (ev : Event) :
  latest_request_current st -> latest_request_current (state_of (step st ev)).
Proof.
  intro H. destruct ev; cbn [step state_of].
  - exact H.
  - apply latest_previousPage, H.
  - apply latest_nextPage, H.
  - unfold zoomSelect_change.
    match goal with |- latest_request_current (renderPage _ ?s) =>
      apply (latest_renderPage s) end.
    apply (latest_no_doc st H).
  - exact H.
  - exact H.
  - exact H.
  - apply latest_keydown, H.
  - unfold touchstart. destruct touches as [|t0 [|t1 [|t2 r]]]; exact H.
  - apply latest_touchmove, H.
  - apply latest_touchend, H.
  - unfold loadPDF_then.
    destruct (nth_error (loads st) k) as [[data keep [|]]|]; try exact H.
    match goal with |- latest_request_current (renderPage _ ?s) =>
      apply (latest_renderPage s) end.
    destruct keep; cbn; discriminate.
  - unfold loadPDF_rejected.
    destruct (nth_error (loads st) k) as [[data keep [|]]|]; exact H.
  - unfold renderPage_fetched.
    destruct (nth_error (renders st) k) as [[num [|vp|]]|] eqn:E; try exact H.
    apply (latest_ext st); try reflexivity; [|exact H].
    cbn. apply (map_r_num_update _ _ _ _ _ E).
  - unfold renderPage_drawn.
    destruct (nth_error (renders st) k) as [[num [|vp|]]|] eqn:E; try exact H.
    cbn. destruct (pdfDoc st) eqn:D;
      (apply (latest_ext st); try reflexivity; [|exact H]);
      cbn; apply (map_r_num_update _ _ _ _ _ E).
Qed.

(** The newest render request is always for the current page: from the
    initial state, after any sequence of events, no render call is waiting
    while no document is loaded, and with a document loaded the render call
    made last was made for the page index the module holds now. *)
Theorem newest_request_is_for_current_page (sel : Q) (retain : bool) (evs : list Event) :
  latest_request_current (run (init sel retain) evs).
Proof.
  apply (run_keeps latest_request_current (fun _ => True)).
  - intros s ev Hs _. apply step_latest, Hs.
  - reflexivity.
  - apply Forall_True.
Qed.





End RequestFacts.

(** ** Theorems: coordinate text *)

Module FormatFacts.
Import Format.
Import DecimalString.

Lemma length_app_string (a b : string) :
  String.length (a ++ b) = (String.length a + String.length b)%nat.
Proof. induction a as [|c a IH]; simpl; [reflexivity|rewrite IH; reflexivity]. Qed.

Lemma length_zeros (k : nat) : String.length (zeros k) = k.
Proof. induction k as [|k IH]; simpl; [reflexivity|rewrite IH; reflexivity]. Qed.

Lemma substring_all (m : string) : substring 0 (String.length m) m = m.
Proof. induction m as [|c m IH]; simpl; [reflexivity|rewrite IH; reflexivity]. Qed.

Lemma substring_split (m : string) : forall j : nat,
  (j <= String.length m)%nat ->
  (substring 0 j m ++ substring j (String.length m - j) m)%string = m.
Proof.
  induction m as [|c m IH]; intros j Hj.
  - destruct j; reflexivity.
  - destruct j as [|j].
    + cbn [substring append]. change (String.length (String c m) - 0)%nat
        with (S (String.length m)). cbn [substring].
      rewrite substring_all. reflexivity.
    + simpl in Hj. cbn [substring append String.length Nat.sub].
      rewrite IH by lia. reflexivity.
Qed.

Lemma length_substring_prefix (m : string) : forall j : nat,
  (j <= String.length m)%nat -> String.length (substring 0 j m) = j.
Proof.
  induction m as [|c m IH]; intros [|j] Hj; simpl in *; try reflexivity; try lia.
  rewrite IH by lia. reflexivity.
Qed.

Lemma get_after_prefix (a : string) (c : ascii) (b : string) :
  get (String.length a) (a ++ String c b) = Some c.
Proof. induction a as [|x a IH]; simpl; [reflexivity|exact IH]. Qed.

Lemma without_point_app (a b : string) :
  without_point (a ++ b) = (without_point a ++ without_point b)%string.
Proof.
  induction a as [|c a IH]; simpl; [reflexivity|].
  destruct (Ascii.eqb c "."); simpl; rewrite IH; reflexivity.
Qed.

Lemma without_point_uint (u : Decimal.uint) :
  without_point (NilEmpty.string_of_uint u) = NilEmpty.string_of_uint u.
Proof. induction u; simpl; try rewrite IHu; reflexivity. Qed.

Lemma zeros_uint (k : nat) (u : Decimal.uint) :
  (zeros k ++ NilEmpty.string_of_uint u)%string
  = NilEmpty.string_of_uint (Nat.iter k Decimal.D0 u).
Proof. induction k as [|k IH]; simpl; [reflexivity|rewrite IH; reflexivity]. Qed.

Lemma of_uint_zeros (k : nat) (u : Decimal.uint) :
  N.of_uint (Nat.iter k Decimal.D0 u) = N.of_uint u.
Proof. induction k as [|k IH]; simpl; [reflexivity|exact IH]. Qed.

(** The padded digits of [n]: what [toFixed2_abs] splits at the point. *)
Lemma padded_digits (n : N) :
  exists u : Decimal.uint,
    (let m := digits n in
     if (String.length m <=? 2)%nat
     then (zeros (2 + 1 - String.length m) ++ m)%string else m)
    = NilEmpty.string_of_uint u /\
    N.of_uint u = n /\
    (3 <= String.length (NilEmpty.string_of_uint u))%nat.
Proof.
  cbn zeta. unfold digits.
  destruct (String.length (NilEmpty.string_of_uint (N.to_uint n)) <=? 2)%nat eqn:E.
  - apply Nat.leb_le in E.
    eexists. split; [apply zeros_uint|]. split.
    + rewrite of_uint_zeros. apply DecimalN.Unsigned.of_to.
    + rewrite <- zeros_uint, length_app_string, length_zeros. lia.
  - apply Nat.leb_gt in E.
    exists (N.to_uint n). split; [reflexivity|]. split.
    + apply DecimalN.Unsigned.of_to.
    + lia.
Qed.

Lemma hundredths_close (x : Q) :
  0 <= x ->
  x - 1 / 200 < inject_Z (Z.of_N (hundredths x)) / 100 /\
  inject_Z (Z.of_N (hundredths x)) / 100 <= x + 1 / 200.
Proof.
  intro Hx. unfold hundredths.
  assert (H0 : (0 <= Qfloor (x * 100 + 1 / 2))%Z).
  { rewrite <- (Qfloor_Z 0). apply Qfloor_resp_le.
    apply Qle_trans with (x * 100 + 0).
    - rewrite Qplus_0_r. apply Qmult_le_0_compat; [exact Hx|discriminate].
    - apply Qplus_le_r. discriminate. }
  rewrite Z2N.id by exact H0.
  pose proof (Qfloor_le (x * 100 + 1 / 2)) as Hle.
  pose proof (Qlt_floor (x * 100 + 1 / 2)) as Hlt.
  rewrite inject_Z_plus in Hlt.
  set (n := inject_Z (Qfloor (x * 100 + 1 / 2))) in *.
  split.
  - apply Qlt_shift_div_l; [reflexivity|].
    apply (Qplus_lt_l _ _ 1).
    setoid_replace ((x - 1 / 200) * 100 + 1) with (x * 100 + 1 / 2) by field.
    exact Hlt.
  - apply Qle_shift_div_r; [reflexivity|].
    setoid_replace ((x + 1 / 200) * 100) with (x * 100 + 1 / 2) by field.
    exact Hle.
Qed.

(** The coordinate text reads back: for [0 <= x < 10^21] the text of
    [x.toFixed(2)] has a point before its last two characters and at least
    one character before the point; read as a decimal number without the
    point it is the number of hundredths nearest to [x] (the larger of two
    equally near), which is within half a hundredth of [x]. *)
Theorem toFixed2_reads_back (x : Q) :
  0 <= x -> x < 10 ^ 21 ->
  read_hundredths (toFixed2 x) = Some (hundredths x) /\
  (4 <= String.length (toFixed2 x))%nat /\
  get (String.length (toFixed2 x) - 3) (toFixed2 x) = Some "."%char /\
  x - 1 / 200 < inject_Z (Z.of_N (hundredths x)) / 100 /\
  inject_Z (Z.of_N (hundredths x)) / 100 <= x + 1 / 200.
Proof.
  intros Hx _.
  assert (E : toFixed2 x = toFixed2_abs x).
  { unfold toFixed2. apply Qltb_ge in Hx. rewrite Hx. reflexivity. }
  rewrite E. unfold toFixed2_abs. cbn zeta.
  destruct (padded_digits (hundredths x)) as [u [Hm [Hu Hlen]]].
  cbn zeta in Hm. rewrite Hm.
  set (m := NilEmpty.string_of_uint u) in *.
  assert (Hsplit : (substring 0 (String.length m - 2) m
                    ++ substring (String.length m - 2) 2 m)%string = m).
  { pose proof (substring_split m (String.length m - 2)) as H.
    replace (String.length m - (String.length m - 2))%nat with 2%nat in H by lia.
    apply H. lia. }
  assert (Hpre : String.length (substring 0 (String.length m - 2) m)
                 = (String.length m - 2)%nat)
    by (apply length_substring_prefix; lia).
  assert (Hsuf : String.length (substring (String.length m - 2) 2 m) = 2%nat).
  { apply (f_equal String.length) in Hsplit.
    rewrite length_app_string, Hpre in Hsplit. lia. }
  assert (Hlen' : String.length
                    (substring 0 (String.length m - 2) m ++ "."
                     ++ substring (String.length m - 2) 2 m)
                  = (String.length m + 1)%nat).
  { rewrite length_app_string. cbn [append String.length].
    rewrite Hpre, Hsuf. lia. }
  split; [|split; [|split]].
  - unfold read_hundredths.
    rewrite without_point_app. cbn [append without_point].
    change (Ascii.eqb "." ".") with true. cbn iota.
    rewrite <- without_point_app, Hsplit.
    unfold m. rewrite without_point_uint, NilEmpty.usu. cbn [option_map].
    rewrite Hu. reflexivity.
  - rewrite Hlen'. lia.
  - rewrite Hlen'.
    replace (String.length m + 1 - 3)%nat
      with (String.length (substring 0 (String.length m - 2) m)) by lia.
    apply get_after_prefix.
  - apply hundredths_close, Hx.
Qed.

End FormatFacts.

(** ** Theorems: the pointer overlay *)

Module OverlayFacts.
Import Coord Overlay.

Lemma clamp_inside (v extent : Q) :
  0 <= v <= extent -> clamp v extent == v.
Proof.
  intros [H0 H1]. unfold clamp.
  rewrite (Q.min_l v extent H1). apply Q.max_r. exact H0.
Qed.

Lemma clamp_range (v extent : Q) :
  0 <= extent -> 0 <= clamp v extent <= extent.
Proof.
  intro H. unfold clamp. split.
  - apply Q.le_max_l.
  - apply Q.max_lub; [exact H | apply Q.le_min_r].
Qed.

Lemma clamp_left (v extent : Q) : v <= 0 -> clamp v extent == 0.
Proof.
  intro H. unfold clamp. apply Q.max_l.
  apply Qle_trans with v; [apply Q.le_min_l | exact H].
Qed.

Lemma clamp_right (v extent : Q) :
  0 <= extent -> extent <= v -> clamp v extent == extent.
Proof.
  intros H0 H. unfold clamp.
  rewrite (Q.min_r v extent H). apply Q.max_r. exact H0.
Qed.

(** The pointer is kept on the canvas.  For a canvas rectangle of
    non-negative width and height, whatever offsets [updateOverlays] is
    called with, the pointer it stores is inside the rectangle: an offset
    inside is stored as it is, one to the left of or above the canvas is
    stored as 0, one beyond the right or bottom edge as that edge; storing
    is idempotent; and the tooltip and the dashed lines are placed 8 and
    0.5 pixels from the stored pointer. *)
Theorem updateOverlays_keeps_pointer_on_canvas (g : Geometry) (scale x y : Q) :
  0 <= rect_width g -> 0 <= rect_height g ->
  inside g (pointer (updateOverlays g scale x y)) /\
  (0 <= x <= rect_width g ->
     lastCssX (pointer (updateOverlays g scale x y)) == x) /\
  (0 <= y <= rect_height g ->
     lastCssY (pointer (updateOverlays g scale x y)) == y) /\
  (x <= 0 -> lastCssX (pointer (updateOverlays g scale x y)) == 0) /\
  (rect_width g <= x ->
     lastCssX (pointer (updateOverlays g scale x y)) == rect_width g) /\
  (y <= 0 -> lastCssY (pointer (updateOverlays g scale x y)) == 0) /\
  (rect_height g <= y ->
     lastCssY (pointer (updateOverlays g scale x y)) == rect_height g) /\
  lastCssX
    (pointer
       (updateOverlays g scale
          (lastCssX (pointer (updateOverlays g scale x y)))
          (lastCssY (pointer (updateOverlays g scale x y)))))
    == lastCssX (pointer (updateOverlays g scale x y)) /\
  lastCssY
    (pointer
       (updateOverlays g scale
          (lastCssX (pointer (updateOverlays g scale x y)))
          (lastCssY (pointer (updateOverlays g scale x y)))))
    == lastCssY (pointer (updateOverlays g scale x y)) /\
  tooltip_left (updateOverlays g scale x y)
    == lastCssX (pointer (updateOverlays g scale x y)) + 8 /\
  tooltip_top (updateOverlays g scale x y)
    == lastCssY (pointer (updateOverlays g scale x y)) + 8 /\
  vertical_x (updateOverlays g scale x y)
    == lastCssX (pointer (updateOverlays g scale x y)) + 0.5 /\
  horizontal_y (updateOverlays g scale x y)
    == lastCssY (pointer (updateOverlays g scale x y)) + 0.5.
Proof.
  intros Hw Hh. cbn.
  split; [split; apply clamp_range; assumption|].
  split; [apply clamp_inside|]. split; [apply clamp_inside|].
  split; [apply clamp_left|]. split; [apply clamp_right, Hw|].
  split; [apply clamp_left|]. split; [apply clamp_right, Hh|].
  split; [apply clamp_inside, clamp_range, Hw|].
  split; [apply clamp_inside, clamp_range, Hh|].
  repeat split; reflexivity.
Qed.

Lemma nudge_right (g : Geometry) (p : Pointer) :
  lastCssX p + 1 <= inject_Z (overlay_width g) / DPR g ->
  lastCssX (nudge "ArrowRight" g p) == lastCssX p + 1 /\
  lastCssY (nudge "ArrowRight" g p) = lastCssY p.
Proof.
  intro H. cbn. split; [|reflexivity]. apply Q.min_r. exact H.
Qed.

Lemma nudge_left (g : Geometry) (p : Pointer) :
  1 <= lastCssX p ->
  lastCssX (nudge "ArrowLeft" g p) == lastCssX p - 1 /\
  lastCssY (nudge "ArrowLeft" g p) = lastCssY p.
Proof.
  intro H. cbn. split; [|reflexivity]. apply Q.max_r.
  apply (Qplus_le_l _ _ 1). ring_simplify. exact H.
Qed.

Lemma keydown_pointer_alt (k : string) (st : State) (g : Geometry) (p : Pointer) (d : Doc) :
  pdfDoc st = Some d ->
  In k ["ArrowUp"; "ArrowDown"; "ArrowLeft"; "ArrowRight"]%string ->
  keydown_pointer (alt_key k) st g p
  = pointer (updateOverlays g (scale st) (lastCssX (nudge k g p))
               (lastCssY (nudge k g p))).
Proof.
  intros D Hk. unfold keydown_pointer. rewrite D.
  destruct Hk as [<-|[<-|[<-|[<-|[]]]]]; reflexivity.
Qed.

(** Nudging with Alt+Arrow keeps the pointer on the canvas, whatever the
    key event and the state; and when there is room for one more pixel to
    the right (within the rectangle and within the overlay buffer divided
    by the device pixel ratio), Alt+Right moves the pointer right by
    exactly one pixel and Alt+Left after it brings it back, the other
    coordinate staying as it is. *)
Theorem nudge_stays_on_canvas (e : KeyEvent) (st : State) (g : Geometry) (p : Pointer) :
  0 <= rect_width g -> 0 <= rect_height g -> inside g p ->
  inside g (keydown_pointer e st g p) /\
  (forall d : Doc, pdfDoc st = Some d ->
     lastCssX p + 1 <= rect_width g ->
     lastCssX p + 1 <= inject_Z (overlay_width g) / DPR g ->
     lastCssX (keydown_pointer (alt_key "ArrowRight") st g p) == lastCssX p + 1 /\
     lastCssY (keydown_pointer (alt_key "ArrowRight") st g p) == lastCssY p /\
     lastCssX
       (keydown_pointer (alt_key "ArrowLeft") st g
          (keydown_pointer (alt_key "ArrowRight") st g p)) == lastCssX p /\
     lastCssY
       (keydown_pointer (alt_key "ArrowLeft") st g
          (keydown_pointer (alt_key "ArrowRight") st g p)) == lastCssY p).
Proof.
  intros Hw Hh Hin. split.
  - unfold keydown_pointer.
    destruct (_ && _); [exact Hin|].
    destruct (pdfDoc st); [|exact Hin].
    destruct (_ && _); [exact Hin|].
    destruct (_ && _); [|exact Hin].
    cbn. split; apply clamp_range; assumption.
  - intros d D Hroom Hbuf.
    destruct Hin as [[Hx0 Hx1] [Hy0 Hy1]].
    destruct (nudge_right g p Hbuf) as [Hrx Hry].
    assert (E1 : keydown_pointer (alt_key "ArrowRight") st g p
                 = pointer (updateOverlays g (scale st)
                              (lastCssX (nudge "ArrowRight" g p))
                              (lastCssY (nudge "ArrowRight" g p))))
      by (apply (keydown_pointer_alt _ _ _ _ d D); simpl; auto).
    assert (X1 : lastCssX (keydown_pointer (alt_key "ArrowRight") st g p)
                 == lastCssX p + 1).
    { rewrite E1. cbn [pointer updateOverlays lastCssX].
      rewrite clamp_inside; [exact Hrx|].
      rewrite Hrx. split; [|exact Hroom].
      apply Qle_trans with (lastCssX p + 0);
        [rewrite Qplus_0_r; exact Hx0 | apply Qplus_le_r; discriminate]. }
    assert (Y1 : lastCssY (keydown_pointer (alt_key "ArrowRight") st g p)
                 == lastCssY p).
    { rewrite E1. cbn [pointer updateOverlays lastCssY].
      rewrite Hry. apply clamp_inside. split; assumption. }
    set (p1 := keydown_pointer (alt_key "ArrowRight") st g p) in *.
    assert (H1 : 1 <= lastCssX p1).
    { rewrite X1. apply Qle_trans with (0 + 1); [discriminate|].
      apply Qplus_le_l. exact Hx0. }
    destruct (nudge_left g p1 H1) as [Hlx Hly].
    assert (E2 : keydown_pointer (alt_key "ArrowLeft") st g p1
                 = pointer (updateOverlays g (scale st)
                              (lastCssX (nudge "ArrowLeft" g p1))
                              (lastCssY (nudge "ArrowLeft" g p1))))
      by (apply (keydown_pointer_alt _ _ _ _ d D); simpl; auto).
    assert (Hback : lastCssX (nudge "ArrowLeft" g p1) == lastCssX p).
    { rewrite Hlx, X1. ring. }
    split; [exact X1|]. split; [exact Y1|]. split.
    + rewrite E2. cbn [pointer updateOverlays lastCssX].
      rewrite clamp_inside; [exact Hback|].
      rewrite Hback. split; assumption.
    + rewrite E2. cbn [pointer updateOverlays lastCssY].
      rewrite Hly. rewrite clamp_inside; [exact Y1|].
      rewrite Y1. split; assumption.
Qed.

(** The coordinate read does not depend on the zoom: the same point of the
    page, which is [k] times as far from the corner of the canvas when the
    scale is [k] times as large, reads the same; the corner reads 0, and
    the reading grows with the offset. *)
Theorem reading_independent_of_zoom (x s k : Q) :
  0 < s -> 0 < k ->
  toDocumentUnit (k * x) (k * s) == toDocumentUnit x s /\
  toDocumentUnit 0 s == 0 /\
  (forall x', x <= x' -> toDocumentUnit x s <= toDocumentUnit x' s).
Proof.
  intros Hs Hk.
  assert (Hs0 : ~ s == 0) by (intro H; rewrite H in Hs; discriminate Hs).
  assert (Hk0 : ~ k == 0) by (intro H; rewrite H in Hk; discriminate Hk).
  unfold toDocumentUnit. split; [|split].
  - field. split; assumption.
  - field. exact Hs0.
  - intros x' Hx. apply Qmult_le_compat_r; [|discriminate].
    unfold Qdiv. apply Qmult_le_compat_r; [exact Hx|].
    apply Qlt_le_weak, Qinv_lt_0_compat, Hs.
Qed.

End OverlayFacts.

(** ** Theorems: placing the tooltip *)

Module PlacingFacts.
Import TooltipPlacing.

Lemma place_fits (mouse size extent : Q) :
  0 <= mouse <= extent -> size + 10 <= extent ->
  5 <= place mouse size extent /\ place mouse size extent + size + 5 <= extent.
Proof.
  intros [H0 H1] Hfit. unfold place. cbn zeta.
  destruct (Qltb extent (mouse + 12 + size + 5)) eqn:E.
  - destruct (Qltb (mouse - size - 12) 5) eqn:E'.
    + split; [apply Qle_refl|].
      setoid_replace (5 + size + 5) with (size + 10) by ring. exact Hfit.
    + apply Qltb_ge in E'. split; [exact E'|].
      setoid_replace (mouse - size - 12 + size + 5) with (mouse - 7) by ring.
      apply Qle_trans with mouse; [|exact H1].
      apply (Qplus_le_l _ _ 7). ring_simplify.
      apply Qle_trans with (mouse + 0);
        [rewrite Qplus_0_r; apply Qle_refl | apply Qplus_le_r; discriminate].
  - apply Qltb_ge in E. split; [|exact E].
    apply Qle_trans with (0 + 12); [discriminate|].
    apply Qplus_le_l. exact H0.
Qed.

(** The tooltip stays on the canvas: with the pointer on the canvas and a
    tooltip that fits between the margins (its size plus 10 is at most the
    canvas extent), the tooltip is placed at least 5 pixels from the left
    and top edges and ends at least 5 pixels before the right and bottom
    edges; it is placed 12 pixels after the pointer whenever that fits. *)
Theorem tooltip_stays_on_canvas (mouseX mouseY ttW ttH canvasW canvasH : Q) :
  0 <= mouseX <= canvasW -> 0 <= mouseY <= canvasH ->
  ttW + 10 <= canvasW -> ttH + 10 <= canvasH ->
  5 <= fst (tooltip_position mouseX mouseY ttW ttH canvasW canvasH) /\
  fst (tooltip_position mouseX mouseY ttW ttH canvasW canvasH) + ttW + 5
    <= canvasW /\
  5 <= snd (tooltip_position mouseX mouseY ttW ttH canvasW canvasH) /\
  snd (tooltip_position mouseX mouseY ttW ttH canvasW canvasH) + ttH + 5
    <= canvasH /\
  (mouseX + 12 + ttW + 5 <= canvasW ->
     fst (tooltip_position mouseX mouseY ttW ttH canvasW canvasH) = mouseX + 12) /\
  (mouseY + 12 + ttH + 5 <= canvasH ->
     snd (tooltip_position mouseX mouseY ttW ttH canvasW canvasH) = mouseY + 12).
Proof.
  intros Hx Hy Hw Hh. cbn [tooltip_position fst snd].
  destruct (place_fits mouseX ttW canvasW Hx Hw) as [A B].
  destruct (place_fits mouseY ttH canvasH Hy Hh) as [C D].
  split; [exact A|]. split; [exact B|]. split; [exact C|]. split; [exact D|].
  split; intro H; unfold place; cbn zeta; apply Qltb_ge in H; rewrite H; reflexivity.
Qed.

End PlacingFacts.

(** ** Theorems: click to copy *)

Module CopyFacts.
Import Copy.

Lemma clearTimeout_own (t : Tip) :
  one_timer t -> clearTimeout (copyTimeout t) (timers t) = [].
Proof.
  intros [[H|[id [Hc Ht]]] _].
  - rewrite H. destruct (copyTimeout t); reflexivity.
  - rewrite Hc, Ht. simpl. rewrite Nat.eqb_refl. reflexivity.
Qed.

Lemma click_one_timer (t : Tip) : one_timer t -> one_timer (click t).
Proof.
  intro H. unfold click. destruct (negb (autoCopy_checked t)); [exact H|].
  unfold one_timer; cbn. rewrite (clearTimeout_own t H). cbn.
  split; [right; exists (next_timer t); split; reflexivity|].
  split.
  - intros id [<-|[]]. lia.
  - intros id [= <-]. lia.
Qed.

Lemma timer_fired_one_timer (id : nat) (t : Tip) :
  one_timer t -> one_timer (timer_fired id t).
Proof.
  intro H. unfold timer_fired.
  destruct (existsb (Nat.eqb id) (timers t)) eqn:E; [|exact H].
  destruct H as [[H|[id' [Hc Ht]]] [Hlt Hlt']].
  - rewrite H in E. discriminate E.
  - rewrite Ht in E. simpl in E. rewrite orb_false_r in E.
    apply Nat.eqb_eq in E. subst id'.
    unfold one_timer; cbn. rewrite Ht. simpl. rewrite Nat.eqb_refl. cbn.
    split; [left; reflexivity|]. split; [intros ? []|exact Hlt'].
Qed.

Lemma tip_step_one_timer (t : Tip) (ev : TipEvent) :
  one_timer t -> one_timer (tip_step t ev).
Proof.
  intro H. destruct ev; cbn [tip_step].
  - exact H.
  - exact H.
  - apply click_one_timer, H.
  - apply timer_fired_one_timer, H.
  - exact H.
Qed.

(** At most one acknowledgement timer is waiting: starting with no timer
    (or with the one that [copyTimeout] names), after any sequence of
    pointer moves, clicks, timer firings and changes of the auto-copy box,
    the timers waiting are none or exactly the one set by the last click;
    a click while one is waiting cancels it and sets a new one. *)
Theorem one_acknowledgement_timer (t : Tip) (evs : list TipEvent) :
  one_timer t ->
  one_timer (tip_run t evs) /\
  (length (timers (tip_run t evs)) <= 1)%nat /\
  (autoCopy_checked (tip_run t evs) = true ->
   timers (click (tip_run t evs)) = [next_timer (tip_run t evs)]).
Proof.
  intro H.
  assert (Hrun : one_timer (tip_run t evs)).
  { unfold tip_run. revert t H. induction evs as [|ev r IH]; intros t H; simpl.
    - exact H.
    - apply IH. apply tip_step_one_timer, H. }
  split; [exact Hrun|]. split.
  - destruct Hrun as [[E|[id [_ E]]] _]; rewrite E; simpl; lia.
  - intro Ha. unfold click. rewrite Ha. cbn.
    rewrite (clearTimeout_own _ Hrun). reflexivity.
Qed.

Lemma click_checked (t : Tip) :
  autoCopy_checked t = true ->
  written (click t) = written t ++ [textContent t] /\
  textContent (click t) = ("Copied: " ++ textContent t)%string /\
  autoCopy_checked (click t) = true.
Proof.
  intro Ha. unfold click. rewrite Ha. cbn. repeat split.
Qed.

(** A click copies what the tooltip shows, whatever that is: with
    auto-copy checked, a click hands the tooltip's text to the clipboard
    and shows "Copied: " before it; after a pointer move that text is the
    coordinate text of the clamped pointer; a second click without a
    pointer move in between hands over the acknowledgement ("Copied: "
    and the text) instead of the coordinates.  With auto-copy unchecked a
    click changes nothing. *)
Theorem click_copies_tooltip_text (t : Tip) :
  (autoCopy_checked t = true ->
     written (click t) = written t ++ [textContent t] /\
     textContent (click t) = ("Copied: " ++ textContent t)%string /\
     written (click (click t))
       = written t ++ [textContent t; ("Copied: " ++ textContent t)%string] /\
     forall g scale x y,
       written (click (tip_step t (MouseMove g scale x y)))
       = written t
         ++ [Format.coordText
               (Coord.clamp (x - Overlay.rect_left g) (Overlay.rect_width g))
               (Coord.clamp (y - Overlay.rect_top g) (Overlay.rect_height g))
               scale]) /\
  (autoCopy_checked t = false -> click t = t).
Proof.
  split.
  - intro Ha.
    pose proof (click_checked t Ha) as [Hw [Ht Hc]].
    pose proof (click_checked (click t) Hc) as [Hw2 _].
    split; [exact Hw|]. split; [exact Ht|].
    split; [rewrite Hw2, Hw, Ht, <- app_assoc; reflexivity|].
    intros g scale x y.
    assert (Hm : autoCopy_checked (tip_step t (MouseMove g scale x y)) = true)
      by exact Ha.
    pose proof (click_checked _ Hm) as [Hw3 _].
    rewrite Hw3. reflexivity.
  - intro Ha. unfold click. rewrite Ha. reflexivity.
Qed.

End CopyFacts.

(** ** Theorems: the keyboard *)

Section KeyboardFacts.
Context {P : Platform}.

(** The arrow and page keys without Alt never reach the page branches:
    for every such key event, with any of Ctrl and Shift, the keydown
    handler leaves the state as it is (it is the window that scrolls).  A
    Ctrl+Arrow turns the page only together with Alt: then, with a document
    loaded, Left runs the previous-page step and Right the next-page
    step. *)
Theorem ctrl_arrow_needs_alt (e : KeyEvent) (st : State) :
  In (key e)
    ["ArrowUp"; "ArrowDown"; "ArrowLeft"; "ArrowRight"; "PageUp"; "PageDown"]%string ->
  (altKey e = false -> keydown e st = Done st []) /\
  (forall d : Doc, pdfDoc st = Some d -> altKey e = true -> ctrlKey e = true ->
     (key e = "ArrowLeft"%string -> keydown e st = previousPage st) /\
     (key e = "ArrowRight"%string -> keydown e st = nextPage st)).
Proof.
  destruct e as [k a c s]. cbn [key altKey ctrlKey shiftKey]. intro Hk. split.
  - intros ->. unfold keydown. cbn [key altKey ctrlKey shiftKey].
    destruct Hk as [<-|[<-|[<-|[<-|[<-|[<-|[]]]]]]]; cbn;
      destruct (pdfDoc st); reflexivity.
  - intros d D -> ->. unfold keydown. cbn [key altKey ctrlKey shiftKey].
    rewrite D. split; intros ->; cbn; reflexivity.
Qed.

(** The letter keys are plain keys: with Shift or Alt held, P, N, R and H
    (in either case) do nothing, and so do R and H with Ctrl; the zoom keys
    [+], [=] and [-] act whatever modifiers are held, when a document is
    loaded. *)
Theorem letter_keys_need_no_modifier (e : KeyEvent) (st : State) :
  (In (key e) ["p"; "P"; "n"; "N"; "r"; "R"; "h"; "H"]%string ->
   shiftKey e = true \/ altKey e = true ->
   keydown e st = Done st []) /\
  (In (key e) ["r"; "R"; "h"; "H"]%string -> ctrlKey e = true ->
   keydown e st = Done st []) /\
  (forall d : Doc, pdfDoc st = Some d ->
     (key e = "+"%string \/ key e = "="%string -> keydown e st = Done (stepUp st) []) /\
     (key e = "-"%string -> keydown e st = Done (stepDown st) [])).
Proof.
  destruct e as [k a c s]. cbn [key altKey ctrlKey shiftKey].
  split; [|split].
  - intros Hk Hmod. unfold keydown. cbn [key altKey ctrlKey shiftKey].
    destruct a, c, s; destruct Hmod as [Hm|Hm]; try discriminate Hm;
      destruct Hk as [<-|[<-|[<-|[<-|[<-|[<-|[<-|[<-|[]]]]]]]]]; cbn;
      destruct (pdfDoc st); reflexivity.
  - intros Hk ->. unfold keydown. cbn [key altKey ctrlKey shiftKey].
    destruct Hk as [<-|[<-|[<-|[<-|[]]]]]; cbn;
      destruct (pdfDoc st); destruct a, s; reflexivity.
  - intros d D. unfold keydown. cbn [key altKey ctrlKey shiftKey]. rewrite D.
    split.
    + intros [-> | ->]; cbn; destruct a, c, s; reflexivity.
    + intros ->; cbn; destruct a, c, s; reflexivity.
Qed.

End KeyboardFacts.

(** ** Theorems: the other variants *)

Section VariantFacts.
Context {P : Platform}.
Import VariantKeys.

(** The arrow keys of the earlier variants.  In the variants that test
    [pdfDoc] first, an arrow key keeps the page index within the document,
    and does nothing when no document is loaded.  In [viewer.js], which
    does not test, ArrowRight without a document stops at a TypeError and
    every other key does nothing; with a document loaded the two handlers
    agree. *)
Theorem arrow_keys_of_variants (k : string) (st : State) :
  page_in_range st ->
  page_in_range (state_of (keydown_guarded k st)) /\
  (pdfDoc st = None ->
     keydown_guarded k st = Done st [] /\
     keydown_unguarded k st
     = if (k =? "ArrowRight")%string then TypeError st else Done st []) /\
  (forall d : Doc, pdfDoc st = Some d ->
     keydown_unguarded k st = keydown_guarded k st).
Proof.
  intro H. split; [|split].
  - unfold keydown_guarded.
    destruct (pdfDoc st) as [d|] eqn:D; [|exact H].
    destruct ((k =? "ArrowRight")%string && (pageNum st <? numPages d)%Z) eqn:E;
      cbn [state_of].
    + apply andb_true_iff in E. destruct E as [_ E]. apply Z.ltb_lt in E.
      apply renderPage_in_range. unfold page_in_range in *; cbn.
      rewrite D in *. lia.
    + destruct ((k =? "ArrowLeft")%string && (1 <? pageNum st)%Z) eqn:E';
        cbn [state_of]; [|exact H].
      apply andb_true_iff in E'. destruct E' as [_ E']. apply Z.ltb_lt in E'.
      apply renderPage_in_range. unfold page_in_range in *; cbn.
      rewrite D in *. lia.
  - intro D. unfold keydown_guarded, keydown_unguarded. rewrite D.
    split; [reflexivity|].
    unfold page_in_range in H. rewrite D in H. rewrite H.
    destruct (k =? "ArrowRight")%string; [reflexivity|].
    rewrite andb_false_r. reflexivity.
  - intros d D. unfold keydown_guarded, keydown_unguarded, renderPage_sync.
    rewrite D. cbn.
    destruct (k =? "ArrowRight")%string eqn:Er; cbn.
    + destruct (pageNum st <? numPages d)%Z; cbn; [rewrite D; reflexivity|].
      apply String.eqb_eq in Er. subst k. reflexivity.
    + destruct ((k =? "ArrowLeft")%string && (1 <? pageNum st)%Z); cbn;
        [rewrite D|]; reflexivity.
Qed.

(** The Refresh button of the variant that has one keeps the page and the
    scale: with a buffer held, the button requests a load of that buffer,
    and when the document arrives the page index and the scale are the
    ones held before, that page is requested, and nothing clamps: the page
    index is within the new document exactly when it was at most its page
    count. *)
Theorem refresh_keeps_page_and_scale (st : State) (data : Bytes) (doc : Doc) :
  pdfData st = Some data -> (1 <= pageNum st)%Z ->
  loads (refreshBtn_click st)
    = loads st ++ [{| l_data := data; l_keep := true; l_settled := false |}] /\
  pdfDoc (loadPDF_preserve_then (length (loads st)) doc (refreshBtn_click st))
    = Some doc /\
  pageNum (loadPDF_preserve_then (length (loads st)) doc (refreshBtn_click st))
    = pageNum st /\
  scale (loadPDF_preserve_then (length (loads st)) doc (refreshBtn_click st))
    = scale st /\
  renders (loadPDF_preserve_then (length (loads st)) doc (refreshBtn_click st))
    = renders st ++ [{| r_num := pageNum st; r_phase := Fetching |}] /\
  (page_in_range
     (loadPDF_preserve_then (length (loads st)) doc (refreshBtn_click st))
   <-> (pageNum st <= numPages doc)%Z).
Proof.
  intros B Hp. unfold refreshBtn_click. rewrite B.
  split; [reflexivity|].
  assert (E : loadPDF_preserve_then (length (loads st)) doc
                (loadPDF_preserve data true st)
              = renderPage (pageNum st)
                  (set_pdfDoc (Some doc)
                     (set_loads
                        (update (length (loads st))
                           {| l_data := data; l_keep := true; l_settled := true |}
                           (loads st ++ [{| l_data := data; l_keep := true;
                                            l_settled := false |}])) st))).
  { unfold loadPDF_preserve_then, loadPDF_preserve. cbn [loads set_loads].
    rewrite nth_error_snoc. reflexivity. }
  rewrite E.
  rewrite renderPage_pdfDoc, renderPage_pageNum, renderPage_scale.
  rewrite (renderPage_renders _ _ doc) by reflexivity.
  split; [reflexivity|]. split; [reflexivity|]. split; [reflexivity|].
  split; [reflexivity|].
  unfold page_in_range. rewrite renderPage_pdfDoc, renderPage_pageNum. cbn.
  split; lia.
Qed.

End VariantFacts.

(** ** Theorems: repeated steps and the help overlay *)

Section RepeatedSteps.
Context {P : Platform}.

Lemma next_click_page (st : State) (d : Doc) :
  pdfDoc st = Some d -> (pageNum st <= numPages d)%Z ->
  pdfDoc (state_of (step st NextClick)) = Some d /\
  pageNum (state_of (step st NextClick))
  = Z.min (pageNum st + 1) (numPages d).
Proof.
  intros D Hp. cbn [step]. unfold nextPage. rewrite D.
  destruct (pageNum st <? numPages d)%Z eqn:E; cbn [state_of].
  - apply Z.ltb_lt in E. rewrite renderPage_pdfDoc, renderPage_pageNum. cbn.
    split; [exact D|lia].
  - apply Z.ltb_ge in E. split; [exact D|lia].
Qed.

Lemma prev_click_page (st : State) (d : Doc) :
  pdfDoc st = Some d -> (1 <= pageNum st)%Z ->
  pdfDoc (state_of (step st PrevClick)) = Some d /\
  pageNum (state_of (step st PrevClick)) = Z.max (pageNum st - 1) 1.
Proof.
  intros D Hp. cbn [step]. unfold previousPage.
  destruct (1 <? pageNum st)%Z eqn:E; cbn [state_of].
  - apply Z.ltb_lt in E. rewrite renderPage_pdfDoc, renderPage_pageNum. cbn.
    split; [exact D|lia].
  - apply Z.ltb_ge in E. split; [exact D|lia].
Qed.

Lemma next_clicks (n : nat) : forall (st : State) (d : Doc),
  pdfDoc st = Some d -> (pageNum st <= numPages d)%Z ->
  pageNum (run st (repeat NextClick n))
  = Z.min (pageNum st + Z.of_nat n) (numPages d).
Proof.
  induction n as [|n IH]; intros st d D Hp.
  - cbn. lia.
  - cbn [repeat run].
    destruct (next_click_page st d D Hp) as [D' Hp'].
    rewrite (IH _ d D') by lia. rewrite Hp'. lia.
Qed.

Lemma prev_clicks (n : nat) : forall (st : State) (d : Doc),
  pdfDoc st = Some d -> (1 <= pageNum st)%Z ->
  pageNum (run st (repeat PrevClick n))
  = Z.max (pageNum st - Z.of_nat n) 1.
Proof.
  induction n as [|n IH]; intros st d D Hp.
  - cbn. lia.
  - cbn [repeat run].
    destruct (prev_click_page st d D Hp) as [D' Hp'].
    rewrite (IH _ d D') by lia. rewrite Hp'. lia.
Qed.

(** Page turns add up and saturate: with a document loaded and the page
    index within it, [n] clicks on Next leave the page index at
    [min(pageNum + n, numPages)] and [n] clicks on Previous at
    [max(pageNum - n, 1)]; so Next followed by Previous returns to the
    page it started from unless that was the last page, and Previous
    followed by Next unless it was the first. *)
Theorem page_turns_saturate (st : State) (d : Doc) (n : nat) :
  pdfDoc st = Some d -> (1 <= pageNum st <= numPages d)%Z ->
  pageNum (run st (repeat NextClick n))
    = Z.min (pageNum st + Z.of_nat n) (numPages d) /\
  pageNum (run st (repeat PrevClick n))
    = Z.max (pageNum st - Z.of_nat n) 1 /\
  ((pageNum st < numPages d)%Z ->
     pageNum (run st [NextClick; PrevClick]) = pageNum st) /\
  ((1 < pageNum st)%Z ->
     pageNum (run st [PrevClick; NextClick]) = pageNum st).
Proof.
  intros D [H1 Hn].
  split; [apply (next_clicks n st d D Hn)|].
  split; [apply (prev_clicks n st d D H1)|].
  split; intro H; cbn [run].
  - destruct (next_click_page st d D Hn) as [D' Hp'].
    destruct (prev_click_page _ d D') as [_ Hp'']; [lia|].
    rewrite Hp'', Hp'. lia.
  - destruct (prev_click_page st d D H1) as [D' Hp'].
    destruct (next_click_page _ d D') as [_ Hp'']; [lia|].
    rewrite Hp'', Hp'. lia.
Qed.

Lemma stepUp_index (st : State) (i : nat) :
  ascending zoomSteps = true -> (i < length zoomSteps)%nat ->
  scale st == nth i zoomSteps 0 ->
  scale (stepUp st) == nth (Nat.min (i + 1) (length zoomSteps - 1)) zoomSteps 0.
Proof.
  intros Hasc Hi Hs.
  pose proof (indexOf_step st i Hasc Hi Hs) as Hidx.
  destruct (Nat.lt_ge_cases (S i) (length zoomSteps)) as [Hup|Htop].
  - rewrite (stepUp_scale st i Hidx Hup).
    replace (Nat.min (i + 1) (length zoomSteps - 1)) with (S i) by lia.
    reflexivity.
  - assert (E : stepUp st = st).
    { unfold stepUp. rewrite Hidx.
      assert (E : (Z.of_nat i <? Z.of_nat (length zoomSteps) - 1)%Z = false)
        by (apply Z.ltb_ge; lia).
      rewrite E, andb_false_r. reflexivity. }
    rewrite E, Hs.
    replace (Nat.min (i + 1) (length zoomSteps - 1)) with i by lia.
    reflexivity.
Qed.

Lemma stepDown_index (st : State) (i : nat) :
  ascending zoomSteps = true -> (i < length zoomSteps)%nat ->
  scale st == nth i zoomSteps 0 ->
  scale (stepDown st) == nth (i - 1) zoomSteps 0.
Proof.
  intros Hasc Hi Hs.
  pose proof (indexOf_step st i Hasc Hi Hs) as Hidx.
  destruct i as [|j].
  - assert (E : stepDown st = st)
      by (unfold stepDown; rewrite Hidx; reflexivity).
    rewrite E, Hs. reflexivity.
  - rewrite (stepDown_scale st j Hidx).
    replace (S j - 1)%nat with j by lia. reflexivity.
Qed.

Lemma stepUps (n : nat) : forall (st : State) (i : nat),
  ascending zoomSteps = true -> (i < length zoomSteps)%nat ->
  scale st == nth i zoomSteps 0 ->
  scale (Nat.iter n stepUp st)
  == nth (Nat.min (i + n) (length zoomSteps - 1)) zoomSteps 0.
Proof.
  induction n as [|n IH]; intros st i Hasc Hi Hs.
  - cbn. rewrite Hs.
    replace (Nat.min (i + 0) (length zoomSteps - 1)) with i by lia.
    reflexivity.
  - cbn [Nat.iter nat_rect].
    pose proof (IH st i Hasc Hi Hs) as Hn.
    assert (Hlt : (Nat.min (i + n) (length zoomSteps - 1) < length zoomSteps)%nat)
      by lia.
    rewrite (stepUp_index _ _ Hasc Hlt Hn).
    replace (Nat.min (Nat.min (i + n) (length zoomSteps - 1) + 1)
               (length zoomSteps - 1))
      with (Nat.min (i + S n) (length zoomSteps - 1)) by lia.
    reflexivity.
Qed.

Lemma stepDowns (n : nat) : forall (st : State) (i : nat),
  ascending zoomSteps = true -> (i < length zoomSteps)%nat ->
  scale st == nth i zoomSteps 0 ->
  scale (Nat.iter n stepDown st) == nth (i - n) zoomSteps 0.
Proof.
  induction n as [|n IH]; intros st i Hasc Hi Hs.
  - cbn. rewrite Hs. replace (i - 0)%nat with i by lia. reflexivity.
  - cbn [Nat.iter nat_rect].
    pose proof (IH st i Hasc Hi Hs) as Hn.
    assert (Hlt : (i - n < length zoomSteps)%nat) by lia.
    rewrite (stepDown_index _ _ Hasc Hlt Hn).
    replace (i - n - 1)%nat with (i - S n)%nat by lia.
    reflexivity.
Qed.

(** Zoom steps add up and saturate: when the zoom steps are strictly
    ascending and the scale is the member of index [i], [n] zoom-in steps
    leave the scale at the member of index [min(i + n, last)] and [n]
    zoom-out steps at the member of index [max(i - n, 0)]. *)
Theorem zoom_steps_saturate (st : State) (i n : nat) :
  ascending zoomSteps = true -> (i < length zoomSteps)%nat ->
  scale st == nth i zoomSteps 0 ->
  scale (Nat.iter n stepUp st)
    == nth (Nat.min (i + n) (length zoomSteps - 1)) zoomSteps 0 /\
  scale (Nat.iter n stepDown st) == nth (i - n) zoomSteps 0.
Proof.
  intros Hasc Hi Hs. split.
  - apply stepUps; assumption.
  - apply stepDowns; assumption.
Qed.

Ltac break_keys :=
  repeat match goal with
    | |- context [if ?c then _ else _] => destruct c eqn:?
    | |- context [match ?x with _ => _ end] => destruct x eqn:?
    end.

(** The help overlay and the keys.  Escape, with any modifiers, closes the
    overlay when it is open and otherwise does nothing, with or without a
    document.  The overlay is not modal: for every other key the intents
    emitted, the page index, the scale and the loads requested are the
    same whether the overlay is open or not. *)
Theorem help_overlay_is_not_modal (e : KeyEvent) (st : State) :
  (key e = "Escape"%string ->
     keydown e st
     = Done (if helpOverlay_flex st then set_helpOverlay_flex false st else st) []) /\
  (key e <> "Escape"%string ->
     forall b : bool,
       intents_of (keydown e (set_helpOverlay_flex b st))
         = intents_of (keydown e st) /\
       pageNum (state_of (keydown e (set_helpOverlay_flex b st)))
         = pageNum (state_of (keydown e st)) /\
       scale (state_of (keydown e (set_helpOverlay_flex b st)))
         = scale (state_of (keydown e st)) /\
       loads (state_of (keydown e (set_helpOverlay_flex b st)))
         = loads (state_of (keydown e st)) /\
       renders (state_of (keydown e (set_helpOverlay_flex b st)))
         = renders (state_of (keydown e st))).
Proof.
  destruct e as [k a c s]. cbn [key]. split.
  - intros ->. unfold keydown. cbn [key altKey ctrlKey shiftKey].
    destruct (helpOverlay_flex st); cbn; [reflexivity|].
    destruct (pdfDoc st); [|reflexivity].
    destruct a, c, s; reflexivity.
  - intros Hk b. apply String.eqb_neq in Hk.
    unfold keydown. cbn [key altKey ctrlKey shiftKey]. rewrite Hk.
    cbn [andb pdfDoc set_helpOverlay_flex].
    unfold previousPage, nextPage, stepUp, stepDown, loadPDF, renderPage.
    cbn [pdfDoc pdfData pageNum scale set_helpOverlay_flex].
    break_keys; cbn in *; repeat split; congruence.
Qed.

End RepeatedSteps.

(** ** More theorems on a page *)

Section MoreOnAPage.
#[local] Existing Instance demo.

Lemma toFixed2_reads_back_witness :
  Format.read_hundredths (Format.toFixed2 (Coord.toDocumentUnit 108 1.5))
  = Some (Format.hundredths (Coord.toDocumentUnit 108 1.5)).
Proof.
  refine (proj1 (FormatFacts.toFixed2_reads_back
                   (Coord.toDocumentUnit 108 1.5) _ _)).
  - vm_compute. discriminate.
  - vm_compute. reflexivity.
Defined.

Lemma updateOverlays_keeps_pointer_on_canvas_witness :
  Overlay.inside demo_geometry
    (Overlay.pointer (Overlay.updateOverlays demo_geometry 1.5 1000 (-5))).
Proof.
  refine (proj1 (OverlayFacts.updateOverlays_keeps_pointer_on_canvas
                   demo_geometry 1.5 1000 (-5) _ _)).
  - vm_compute. discriminate.
  - vm_compute. discriminate.
Defined.

Lemma nudge_stays_on_canvas_witness :
  Overlay.inside demo_geometry
    (Overlay.keydown_pointer (Overlay.alt_key "ArrowRight") (loaded false)
       demo_geometry demo_pointer).
Proof.
  refine (proj1 (OverlayFacts.nudge_stays_on_canvas
                   (Overlay.alt_key "ArrowRight") (loaded false)
                   demo_geometry demo_pointer _ _ _)).
  - vm_compute. discriminate.
  - vm_compute. discriminate.
  - vm_compute. repeat split; discriminate.
Defined.

Lemma reading_independent_of_zoom_witness :
  Coord.toDocumentUnit (2 * 108) (2 * 1.5) == Coord.toDocumentUnit 108 1.5.
Proof.
  refine (proj1 (OverlayFacts.reading_independent_of_zoom 108 1.5 2 _ _)).
  - vm_compute. reflexivity.
  - vm_compute. reflexivity.
Defined.

Lemma tooltip_stays_on_canvas_witness :
  5 <= fst (TooltipPlacing.tooltip_position 900 600 110 24 918 1188).
Proof.
  refine (proj1 (PlacingFacts.tooltip_stays_on_canvas 900 600 110 24 918 1188
                   _ _ _ _)).
  - vm_compute. split; discriminate.
  - vm_compute. split; discriminate.
  - vm_compute. discriminate.
  - vm_compute. discriminate.
Defined.

Lemma one_acknowledgement_timer_witness :
  Copy.one_timer
    (Copy.tip_run (Copy.start true)
       [Copy.MouseMove demo_geometry 1.5 108 72; Copy.Click; Copy.Click;
        Copy.TimerFired 0; Copy.TimerFired 1]).
Proof.
  refine (proj1 (CopyFacts.one_acknowledgement_timer (Copy.start true) _ _)).
  split; [left; reflexivity|].
  split; [intros id []|intros id H; discriminate H].
Defined.

Lemma ctrl_arrow_needs_alt_witness :
  keydown ctrl_left (third_page false) = Done (third_page false) [].
Proof.
  refine (proj1 (ctrl_arrow_needs_alt ctrl_left (third_page false) _) eq_refl).
  right; right; left. reflexivity.
Defined.

Lemma demo_on_steps : on_steps (loaded false).
Proof.
  unfold on_steps. vm_compute.
  split; (do 4 apply InA_cons_tl); apply InA_cons_hd; reflexivity.
Qed.

Lemma discrete_zoom_stays_on_steps_witness :
  Forall on_steps (trace (loaded false) stepping).
Proof.
  refine (discrete_zoom_stays_on_steps (loaded false) stepping demo_on_steps _).
  unfold stepping. repeat (apply Forall_cons); try apply Forall_nil;
    try exact I.
  vm_compute. (do 5 apply InA_cons_tl). apply InA_cons_hd. reflexivity.
Defined.

Lemma shown_document_can_be_reloaded_witness :
  exists data : Bytes,
    pdfData (run (init 1.5 false) session) = Some data /\
    keydown (plain_key "r") (run (init 1.5 false) session)
    = Done (loadPDF data (run (init 1.5 false) session)) [].
Proof.
  refine (shown_document_can_be_reloaded 1.5 false session five_pages _).
  vm_compute. reflexivity.
Defined.

Lemma loaded_module_stays_usable_witness :
  faulted (loaded false) (tl (tl (tl (tl session)))) = false.
Proof.
  refine (proj1 (loaded_module_stays_usable (loaded false) five_pages
                   (tl (tl (tl (tl session)))) _)).
  vm_compute. reflexivity.
Defined.

Lemma arrow_keys_of_variants_witness :
  page_in_range (state_of (VariantKeys.keydown_guarded "ArrowRight" (loaded false))).
Proof.
  refine (proj1 (arrow_keys_of_variants "ArrowRight" (loaded false) _)).
  vm_compute. split; discriminate.
Defined.

Lemma refresh_keeps_page_and_scale_witness :
  loads (VariantKeys.refreshBtn_click (third_page true))
  = loads (third_page true)
    ++ [{| l_data := [Byte.x25; Byte.x50; Byte.x44; Byte.x46];
           l_keep := true; l_settled := false |}].
Proof.
  refine (proj1 (refresh_keeps_page_and_scale (third_page true)
                   [Byte.x25; Byte.x50; Byte.x44; Byte.x46] five_pages _ _)).
  - vm_compute. reflexivity.
  - vm_compute. discriminate.
Defined.

Lemma page_turns_saturate_witness :
  pageNum (run (loaded false) (repeat NextClick 7))
  = Z.min (pageNum (loaded false) + Z.of_nat 7) (numPages five_pages).
Proof.
  refine (proj1 (page_turns_saturate (loaded false) five_pages 7 _ _)).
  - vm_compute. reflexivity.
  - vm_compute. split; discriminate.
Defined.

Lemma zoom_steps_saturate_witness :
  scale (Nat.iter 5 stepUp (loaded false))
  == nth (Nat.min (4 + 5) (length zoomSteps - 1)) zoomSteps 0.
Proof.
  refine (proj1 (zoom_steps_saturate (loaded false) 4 5 _ _ _)).
  - vm_compute. reflexivity.
  - vm_compute. lia.
  - vm_compute. reflexivity.
Defined.

End MoreOnAPage.
